(** * Cryptocurrency Price Tracker: the view logic of [frontend/src/App.tsx]

    A shallow embedding of the [App] component: its state, the three
    asynchronous operations ([fetchCryptocurrencies],
    [searchCryptocurrencies], [handleAddCrypto]), the connectivity probe,
    the event handlers and the event loop that interleaves them. *)

From Stdlib Require Import String Ascii List ZArith QArith Bool Lia Permutation.
Import ListNotations.
Local Open Scope string_scope.
Local Open Scope Z_scope.

(* ===================================================================== *)
(** ** JavaScript string and array primitives used by the component *)
(* ===================================================================== *)

(** [String.prototype.toLowerCase].  A string is the sequence of its code
    units, taken below 256 (Basic Latin and Latin-1 Supplement).  There the
    capital letters are [A]..[Z] (65..90) and [À]..[Þ] (192..222, the
    multiplication sign 215 excepted); each is moved 32 up to its small
    letter, every other code unit is kept. *)
Definition lower_ascii (c : ascii) : ascii :=
  let n := nat_of_ascii c in
  if ((65 <=? n) && (n <=? 90))%nat then ascii_of_nat (n + 32)
  else if ((192 <=? n) && (n <=? 222) && negb (n =? 215))%nat then ascii_of_nat (n + 32)
  else c.

Fixpoint toLowerCase (s : string) : string :=
  match s with
  | EmptyString => EmptyString
  | String c s' => String (lower_ascii c) (toLowerCase s')
  end.

(** [s.includes(sub)]: [sub] occurs in [s] at some position. *)
Fixpoint includes (s sub : string) : bool :=
  String.prefix sub s ||
  match s with
  | EmptyString => false
  | String _ s' => includes s' sub
  end.

(** [Array.prototype.sort(compareFn)].  ECMAScript requires the sort to be
    stable; with a consistent comparator the result does not depend on the
    engine's algorithm.  It is written here as an insertion sort that moves
    an element only past elements it is strictly greater than. *)
Section ArraySort.
Context {A : Type} (compareFn : A -> A -> Z).

Fixpoint sort_insert (x : A) (l : list A) : list A :=
  match l with
  | [] => [x]
  | y :: l' => if compareFn x y >? 0 then y :: sort_insert x l' else x :: l
  end.

Definition sort (l : list A) : list A := fold_right sort_insert [] l.
End ArraySort.

(** [Array.prototype.slice(0, n)] *)
Definition slice0 {A : Type} (n : nat) (l : list A) : list A := firstn n l.

(** [a || dflt] on an optional string: [undefined] and the empty string are
    falsy. *)
Definition or_default (a : option string) (dflt : string) : string :=
  match a with
  | Some EmptyString | None => dflt
  | Some s => s
  end.

(* ===================================================================== *)
(** ** Data model *)
(* ===================================================================== *)

Module Cryptocurrency.
(** [interface Cryptocurrency]; the numeric display fields are carried,
    never computed on. *)
Record t : Type := mk {
  id : Z;
  name : string;
  symbol : string;
  price : Q;
  percent_change_24h : Q;
  percent_change_7d : Q;
  market_cap : Q;
  is_default : bool;
  logo : string
}.
End Cryptocurrency.

Module SearchResult.
(** [interface SearchResult] *)
Record t : Type := mk {
  symbol : string;
  name : string
}.
End SearchResult.

Definition is_default : Cryptocurrency.t -> bool := Cryptocurrency.is_default.

(** The [useState] cells of [App]. [anchorEl] is [null] or a DOM element,
    identified here by a number. *)
Record UIState : Type := mkUI {
  cryptocurrencies : list Cryptocurrency.t;
  isSearchDialogOpen : bool;
  searchTerm : string;
  searchResults : list SearchResult.t;
  error : string;
  isLoading : bool;
  anchorEl : option nat
}.

Definition initialState : UIState :=
  {| cryptocurrencies := [];
     isSearchDialogOpen := false;
     searchTerm := "";
     searchResults := [];
     error := "";
     isLoading := true;
     anchorEl := None |}.

Definition setCryptocurrencies (v : list Cryptocurrency.t) (s : UIState) : UIState :=
  mkUI v (isSearchDialogOpen s) (searchTerm s) (searchResults s) (error s)
       (isLoading s) (anchorEl s).
Definition setIsSearchDialogOpen (v : bool) (s : UIState) : UIState :=
  mkUI (cryptocurrencies s) v (searchTerm s) (searchResults s) (error s)
       (isLoading s) (anchorEl s).
Definition setSearchTerm (v : string) (s : UIState) : UIState :=
  mkUI (cryptocurrencies s) (isSearchDialogOpen s) v (searchResults s) (error s)
       (isLoading s) (anchorEl s).
Definition setSearchResults (v : list SearchResult.t) (s : UIState) : UIState :=
  mkUI (cryptocurrencies s) (isSearchDialogOpen s) (searchTerm s) v (error s)
       (isLoading s) (anchorEl s).
Definition setError (v : string) (s : UIState) : UIState :=
  mkUI (cryptocurrencies s) (isSearchDialogOpen s) (searchTerm s) (searchResults s) v
       (isLoading s) (anchorEl s).
Definition setIsLoading (v : bool) (s : UIState) : UIState :=
  mkUI (cryptocurrencies s) (isSearchDialogOpen s) (searchTerm s) (searchResults s)
       (error s) v (anchorEl s).
Definition setAnchorEl (v : option nat) (s : UIState) : UIState :=
  mkUI (cryptocurrencies s) (isSearchDialogOpen s) (searchTerm s) (searchResults s)
       (error s) (isLoading s) v.

(** The table shows default-flagged coins before the others. *)
Fixpoint default_first (l : list Cryptocurrency.t) : bool :=
  match l with
  | [] => true
  | c :: l' =>
      if is_default c then default_first l'
      else forallb (fun d => negb (is_default d)) l'
  end.

(* ===================================================================== *)
(** ** HTTP: requests and how they settle *)
(* ===================================================================== *)

(** The four calls the component issues. *)
Inductive Endpoint : Type :=
| Ping                          (* GET /api/ping *)
| ListCoins                     (* GET {base}/cryptocurrencies *)
| Search (query : string)       (* GET {base}/cryptocurrency/search/{query} *)
| Add (symbol : string).        (* GET {base}/cryptocurrency/add/{symbol} *)

(** The [timeout] option of each call, in milliseconds. *)
Definition timeout (e : Endpoint) : option Z :=
  match e with
  | Ping => Some 5000
  | ListCoins => Some 10000
  | Search _ => Some 5000
  | Add _ => None
  end.

(** A response body that the code treats as an array, or anything else. *)
Inductive Payload (A : Type) : Type :=
| PArray (items : list A)
| POther.
Arguments PArray {A} items.
Arguments POther {A}.

(** The body of an error response: array-shaped, or any other value, of
    which the code reads the [error] member and [JSON.stringify]. *)
Inductive ErrorData : Type :=
| ErrArray (items : list Cryptocurrency.t)
| ErrOther (error_member : option string) (stringified : string).

Record Response (D : Type) : Type := mkResponse {
  data : D;
  status : Z
}.
Arguments mkResponse {D} data status.
Arguments data {D} r.
Arguments status {D} r.

(** [AxiosError]: [code], [message], the response when one was received,
    and whether the request object is set. *)
Record AxiosError : Type := mkAxiosError {
  code : option string;
  message : string;
  response : option (Response ErrorData);
  request : bool
}.

(** What a [catch] clause receives; [axios.isAxiosError] tells the two
    apart. *)
Inductive Thrown : Type :=
| IsAxiosError (e : AxiosError)
| OtherError.

Inductive Settled (D : Type) : Type :=
| Resolved (r : Response D)
| Rejected (e : Thrown).
Arguments Resolved {D} r.
Arguments Rejected {D} e.

(** The type of [response.data] for each call. *)
Definition body (e : Endpoint) : Type :=
  match e with
  | Ping => option string          (* [data.status] when [data] is truthy *)
  | ListCoins => Payload Cryptocurrency.t
  | Search _ => Payload SearchResult.t
  | Add _ => unit                  (* ignored by the caller *)
  end.

(** One way for the backend to answer every call. *)
Definition Network : Type := forall e : Endpoint, Settled (body e).

(* ===================================================================== *)
(** ** Asynchronous functions *)
(* ===================================================================== *)

(** An [async] function body: state updates between [await]s. *)
Inductive Async (A : Type) : Type :=
| Ret (a : A)
| Update (f : UIState -> UIState) (k : Async A)
| Await (e : Endpoint) (k : Settled (body e) -> Async A).
Arguments Ret {A} a.
Arguments Update {A} f k.
Arguments Await {A} e k.

Fixpoint bind {A B : Type} (p : Async A) (f : A -> Async B) : Async B :=
  match p with
  | Ret a => f a
  | Update g k => Update g (bind k f)
  | Await e k => Await e (fun o => bind (k o) f)
  end.

Definition call (f : UIState -> UIState) : Async unit := Update f (Ret tt).
Definition await (e : Endpoint) : Async (Settled (body e)) := Await e Ret.

Declare Scope async_scope.
Delimit Scope async_scope with async.
Notation "x <- p ;; q" := (bind p (fun x => q))
  (at level 61, p at next level, right associativity) : async_scope.
Notation "p ;; q" := (bind p (fun _ => q))
  (at level 61, right associativity) : async_scope.
Local Open Scope async_scope.

(** Where an [async] function stands after running up to its next
    [await]. *)
Inductive Blocked (A : Type) : Type :=
| Finished (a : A)
| Waiting (e : Endpoint) (k : Settled (body e) -> Async A).
Arguments Finished {A} a.
Arguments Waiting {A} e k.

Fixpoint advance {A : Type} (p : Async A) (s : UIState) : UIState * Blocked A :=
  match p with
  | Ret a => (s, Finished a)
  | Update f k => advance k (f s)
  | Await e k => (s, Waiting e k)
  end.

(** Running a function to completion with nothing interleaved; the calls
    it issues are recorded in order. *)
Fixpoint exec {A : Type} (net : Network) (p : Async A) (s : UIState)
  : UIState * list Endpoint * A :=
  match p with
  | Ret a => (s, [], a)
  | Update f k => exec net k (f s)
  | Await e k =>
      let '(s', log, a) := exec net (k (net e)) s in (s', e :: log, a)
  end.

Definition final {A : Type} (r : UIState * list Endpoint * A) : UIState := fst (fst r).
Definition issued {A : Type} (r : UIState * list Endpoint * A) : list Endpoint := snd (fst r).

(* --------------------------------------------------------------------- *)
(** *** fetchCryptocurrencies *)
(* --------------------------------------------------------------------- *)

(** The comparator passed to [sort]. *)
Definition by_default (a b : Cryptocurrency.t) : Z :=
  if Bool.eqb (is_default a) (is_default b) then 0
  else if is_default a then -1 else 1.

Definition msg_fallback : string :=
  "Unable to fetch live cryptocurrency data. Showing default coins.".
Definition msg_no_response : string :=
  "No response from server. Check your network connection.".
Definition msg_setup : string :=
  "Error setting up the request. Check your network connection.".
Definition msg_unexpected : string := "An unexpected error occurred".

(** The [catch] clause of [fetchCryptocurrencies]. *)
Definition fetch_catch (err : Thrown) : Async unit :=
  call (setIsLoading false) ;;
  match err with
  | IsAxiosError axiosError =>
      match response axiosError with
      | Some resp =>
          match data resp with
          | ErrArray items =>
              call (setCryptocurrencies items) ;;
              call (setError msg_fallback)
          | ErrOther _ json =>
              call (setError ("Server Error: " ++ json))
          end
      | None =>
          if request axiosError then call (setError msg_no_response)
          else call (setError msg_setup)
      end
  | OtherError => call (setError msg_unexpected)
  end.

(** What runs when the list request settles.  A resolved response whose
    body is not an array makes [response.data.sort] throw a [TypeError],
    which the [catch] clause receives. *)
Definition fetch_settle (o : Settled (body ListCoins)) : Async unit :=
  match o with
  | Resolved resp =>
      match data resp with
      | PArray items =>
          let sortedCryptos := sort by_default items in
          call (setCryptocurrencies sortedCryptos) ;;
          call (setIsLoading false)
      | POther => fetch_catch OtherError
      end
  | Rejected err => fetch_catch err
  end.

Definition fetchCryptocurrencies : Async unit :=
  call (setIsLoading true) ;;
  call (setError "") ;;
  o <- await ListCoins ;;
  fetch_settle o.

(* --------------------------------------------------------------------- *)
(** *** checkServerConnectivity and initializeApp *)
(* --------------------------------------------------------------------- *)

Definition code_is (c : option string) (v : string) : bool :=
  match c with
  | Some s => String.eqb s v
  | None => false
  end.

Definition msg_probe_timeout : string :=
  "Server connection timed out. Is the backend running?".
Definition msg_probe_network : string :=
  "Network error. Please check your server connection.".

Definition checkServerConnectivity : Async bool :=
  o <- await Ping ;;
  match o with
  | Resolved pingResponse =>
      if code_is (data pingResponse) "ok" then Ret true
      else (call (setError "Unexpected server response") ;; Ret false)
  | Rejected (IsAxiosError axiosError) =>
      (if code_is (code axiosError) "ECONNABORTED" then
         call (setError msg_probe_timeout)
       else if includes (message axiosError) "Network Error" then
         call (setError msg_probe_network)
       else
         call (setError ("Unable to connect to the server: " ++ message axiosError))) ;;
      Ret false
  | Rejected OtherError =>
      call (setError "An unexpected error occurred during server connectivity check.") ;;
      Ret false
  end.

Definition initializeApp : Async unit :=
  isConnected <- checkServerConnectivity ;;
  if isConnected : bool then fetchCryptocurrencies else Ret tt.

(* --------------------------------------------------------------------- *)
(** *** searchCryptocurrencies *)
(* --------------------------------------------------------------------- *)

(** [error.response?.data?.error] *)
Definition response_error (e : AxiosError) : option string :=
  match response e with
  | Some resp =>
      match data resp with
      | ErrOther member _ => member
      | ErrArray _ => None
      end
  | None => None
  end.

(** The predicate given to [filter]. *)
Definition matches_query (query : string) (result : SearchResult.t) : bool :=
  includes (toLowerCase (SearchResult.symbol result)) (toLowerCase query)
  || includes (toLowerCase (SearchResult.name result)) (toLowerCase query).

Definition search_catch (err : Thrown) : Async unit :=
  match err with
  | IsAxiosError e =>
      call (setError ("Search failed: " ++ or_default (response_error e) "Unknown error"))
  | OtherError =>
      call (setError "Failed to perform search. Please try again.")
  end ;;
  call (setSearchResults []).

(** A resolved response whose body is not an array makes
    [response.data.filter] throw. *)
Definition search_settle (query : string) (o : Settled (body (Search query)))
  : Async unit :=
  match o with
  | Resolved resp =>
      match data resp with
      | PArray items =>
          let validResults := slice0 10 (filter (matches_query query) items) in
          call (setSearchResults validResults)
      | POther => search_catch OtherError
      end
  | Rejected err => search_catch err
  end.

Definition searchCryptocurrencies (query : string) : Async unit :=
  if (String.length query <? 2)%nat then call (setSearchResults [])
  else (o <- await (Search query) ;; search_settle query o).

(* --------------------------------------------------------------------- *)
(** *** handleAddCrypto *)
(* --------------------------------------------------------------------- *)

Definition add_catch (err : Thrown) : Async unit :=
  match err with
  | IsAxiosError e =>
      let errorMessage := or_default (response_error e) "Failed to add cryptocurrency" in
      call (setError errorMessage)
  | OtherError => call (setError msg_unexpected)
  end.

Definition add_settle (o : Settled unit) : Async unit :=
  match o with
  | Resolved _ =>
      fetchCryptocurrencies ;;
      call (setIsSearchDialogOpen false) ;;
      call (setSearchResults []) ;;
      call (setSearchTerm "") ;;
      call (setError "")
  | Rejected err => add_catch err
  end.

Definition handleAddCrypto (symbol : string) : Async unit :=
  Await (Add symbol) add_settle.

(* ===================================================================== *)
(** ** The event loop *)
(* ===================================================================== *)

(** An [async] function suspended at an [await]. *)
Inductive Pending : Type :=
| Suspended (e : Endpoint) (k : Settled (body e) -> Async unit).

(** Modelled from the spec: lodash's [debounce], which is imported and not
    part of the component.  It is a cancel-and-reschedule timer: every call
    replaces the pending invocation and re-arms it at the full delay; the
    function runs with the latest arguments once the delay has passed with
    no further call. *)
Definition Debounced : Type := option (Z * string).

(** Modelled from the spec: a call to the debounced function replaces the
    pending invocation and re-arms the timer at the full delay. *)
Definition debounce_call (wait now : Z) (args : string) (d : Debounced) : Debounced :=
  Some (now + wait, args).

(** Modelled from the spec: the pending invocation is due once its delay
    has passed. *)
Definition debounce_due (now : Z) (d : Debounced) : option string :=
  match d with
  | Some (deadline, args) => if deadline <=? now then Some args else None
  | None => None
  end.

(** The mounted component: its state, the requests in flight, the
    debounced search, the next firing of [setInterval], a clock in
    milliseconds and the calls issued so far with their times. *)
Record World : Type := mkWorld {
  ui : UIState;
  inflight : list Pending;
  debouncedSearch : Debounced;
  pollDue : Z;
  clock : Z;
  calls : list (Z * Endpoint)
}.

Definition render (f : UIState -> UIState) (w : World) : World :=
  mkWorld (f (ui w)) (inflight w) (debouncedSearch w) (pollDue w) (clock w) (calls w).

(** Calling an [async] function without awaiting it: its body runs up to
    the first [await], the rest waits for the response. *)
Definition spawn (p : Async unit) (w : World) : World :=
  match advance p (ui w) with
  | (s, Finished _) =>
      mkWorld s (inflight w) (debouncedSearch w) (pollDue w) (clock w) (calls w)
  | (s, Waiting e k) =>
      mkWorld s (inflight w ++ [Suspended e k]) (debouncedSearch w) (pollDue w)
              (clock w) (calls w ++ [(clock w, e)])
  end.

Fixpoint remove_nth {A : Type} (i : nat) (l : list A) : list A :=
  match i, l with
  | _, [] => []
  | O, _ :: l' => l'
  | S i', x :: l' => x :: remove_nth i' l'
  end.

(** The request at position [i] settles as [net] says. *)
Definition settle (i : nat) (net : Network) (w : World) : World :=
  match nth_error (inflight w) i with
  | Some (Suspended e k) =>
      spawn (k (net e))
            (mkWorld (ui w) (remove_nth i (inflight w)) (debouncedSearch w)
                     (pollDue w) (clock w) (calls w))
  | None => w
  end.

Definition poll_interval : Z := 60000.
Definition debounce_wait : Z := 300.

(** One millisecond passes; the timers that are due fire. *)
Definition tick (w : World) : World :=
  let w1 := mkWorld (ui w) (inflight w) (debouncedSearch w) (pollDue w)
                    (clock w + 1) (calls w) in
  let w2 :=
    if pollDue w1 <=? clock w1 then
      spawn fetchCryptocurrencies
            (mkWorld (ui w1) (inflight w1) (debouncedSearch w1)
                     (pollDue w1 + poll_interval) (clock w1) (calls w1))
    else w1 in
  match debounce_due (clock w2) (debouncedSearch w2) with
  | Some query =>
      spawn (searchCryptocurrencies query)
            (mkWorld (ui w2) (inflight w2) None (pollDue w2) (clock w2) (calls w2))
  | None => w2
  end.

Definition handleSearchChange (query : string) (currentTarget : nat) (w : World) : World :=
  let w1 := render (setSearchTerm query) w in
  let w2 := render (setAnchorEl (Some currentTarget)) w1 in
  mkWorld (ui w2) (inflight w2)
          (debounce_call debounce_wait (clock w2) query (debouncedSearch w2))
          (pollDue w2) (clock w2) (calls w2).

Definition handleSelectSearchResult (result : SearchResult.t) (w : World) : World :=
  let w1 := spawn (handleAddCrypto (SearchResult.symbol result)) w in
  let w2 := render (setSearchTerm "") w1 in
  let w3 := render (setSearchResults []) w2 in
  render (setAnchorEl None) w3.

(** The popup is rendered when there are results and an anchor. *)
Definition popup_shown (s : UIState) : bool :=
  match searchResults s, anchorEl s with
  | _ :: _, Some _ => true
  | _, _ => false
  end.

Inductive Event : Type :=
| Elapse (ms : nat)
| Settle (i : nat) (net : Network)
| ClickAddCoin
| CloseDialog
| Typing (text : string) (target : nat)
| ClickDialogItem (i : nat)
| ClickPopupItem (i : nat)
| ClickAway.

Definition handle (w : World) (ev : Event) : World :=
  match ev with
  | Elapse ms => Nat.iter ms tick w
  | Settle i net => settle i net w
  | ClickAddCoin => render (setIsSearchDialogOpen true) w
  | CloseDialog =>
      if isSearchDialogOpen (ui w) then render (setIsSearchDialogOpen false) w else w
  | Typing text target =>
      if isSearchDialogOpen (ui w) then handleSearchChange text target w else w
  | ClickDialogItem i =>
      if isSearchDialogOpen (ui w) then
        match nth_error (searchResults (ui w)) i with
        | Some result => spawn (handleAddCrypto (SearchResult.symbol result)) w
        | None => w
        end
      else w
  | ClickPopupItem i =>
      if popup_shown (ui w) then
        match nth_error (searchResults (ui w)) i with
        | Some result => handleSelectSearchResult result w
        | None => w
        end
      else w
  | ClickAway =>
      if popup_shown (ui w) then render (setAnchorEl None) w else w
  end.

Definition play (evs : list Event) (w : World) : World := fold_left handle evs w.

(** The effect run at mount: [initializeApp()] is started and the poll
    timer armed. *)
Definition mount : World :=
  spawn initializeApp (mkWorld initialState [] None poll_interval 0 []).

Definition reachable (w : World) : Prop := exists evs, play evs mount = w.

(** The search calls among those issued, with their times. *)
Fixpoint search_calls (l : list (Z * Endpoint)) : list (Z * string) :=
  match l with
  | [] => []
  | (t, Search q) :: l' => (t, q) :: search_calls l'
  | _ :: l' => search_calls l'
  end.

(* ===================================================================== *)
(** ** Specification-side notions *)
(* ===================================================================== *)

(** [q] occurs in [s] as a substring, letter case ignored. *)
Definition contains_ignoring_case (s q : string) : Prop :=
  exists pre mid post,
    s = pre ++ mid ++ post /\ toLowerCase mid = toLowerCase q.

(** Every default-flagged coin stands before every other coin. *)
Definition defaults_precede (l : list Cryptocurrency.t) : Prop :=
  forall i j a b,
    nth_error l i = Some a -> nth_error l j = Some b ->
    is_default a = false -> is_default b = true -> (j < i)%nat.

Definition non_default (c : Cryptocurrency.t) : bool := negb (is_default c).

(** A message of the "connection timed out" kind. *)
Definition timeout_class (msg : string) : bool :=
  includes (toLowerCase msg) "timed out".

(** A list request that did not succeed: rejected, or resolved with a body
    that is not an array. *)
Definition fetch_failed (o : Settled (body ListCoins)) : bool :=
  match o with
  | Resolved resp => match data resp with PArray _ => false | POther => true end
  | Rejected _ => true
  end.

(** A failure that carries an array-shaped response body. *)
Definition array_shaped (o : Settled (body ListCoins)) : bool :=
  match o with
  | Rejected (IsAxiosError e) =>
      match response e with
      | Some resp => match data resp with ErrArray _ => true | ErrOther _ _ => false end
      | None => false
      end
  | _ => false
  end.

(** Networks for concrete runs. *)
Definition unreachable : Network := fun _ => Rejected OtherError.

Definition answering (e0 : Endpoint) (o : Settled (body e0)) (net : Network) : Network :=
  fun e =>
    match e0 as x, e as y return Settled (body x) -> Settled (body y) with
    | Ping, Ping => fun o => o
    | ListCoins, ListCoins => fun o => o
    | Search _, Search _ => fun o => o
    | Add _, Add _ => fun o => o
    | _, y => fun _ => net y
    end o.

Definition ok {D : Type} (d : D) : Settled D := Resolved (mkResponse d 200).

Definition coin (id : Z) (symbol name : string) (dflt : bool) : Cryptocurrency.t :=
  Cryptocurrency.mk id name symbol 1 0 0 1 dflt "".

Definition BTC : Cryptocurrency.t := coin 1 "BTC" "Bitcoin" true.
Definition ETH : Cryptocurrency.t := coin 2 "ETH" "Ethereum" true.
Definition DOGE : Cryptocurrency.t := coin 3 "DOGE" "Dogecoin" false.
Definition PEPE : Cryptocurrency.t := coin 4 "PEPE" "Pepe" false.

(** The request timed out: axios rejects with code [ECONNABORTED], the
    request set and no response. *)
Definition timed_out : Thrown :=
  IsAxiosError (mkAxiosError (Some "ECONNABORTED") "timeout exceeded" None true).

(** An error response with status 503 and the given body. *)
Definition unavailable (d : ErrorData) : Thrown :=
  IsAxiosError (mkAxiosError (Some "ERR_BAD_RESPONSE")
                             "Request failed with status code 503"
                             (Some (mkResponse d 503)) true).

(** The keystrokes that follow the first one of a burst, each after a
    pause in milliseconds. *)
Fixpoint burst (target : nat) (rest : list (nat * string)) : list Event :=
  match rest with
  | [] => []
  | (pause, text) :: rest' => Elapse pause :: Typing text target :: burst target rest'
  end.

Fixpoint burst_last (first : string) (rest : list (nat * string)) : string :=
  match rest with
  | [] => first
  | (_, text) :: rest' => burst_last text rest'
  end.

Fixpoint burst_span (rest : list (nat * string)) : Z :=
  match rest with
  | [] => 0
  | (pause, _) :: rest' => Z.of_nat pause + burst_span rest'
  end.

(** Networks and runs used in the examples. *)
Definition ping_ok : Network := answering Ping (ok (Some "ok")) unreachable.
Definition list_ok (items : list Cryptocurrency.t) (net : Network) : Network :=
  answering ListCoins (ok (PArray items)) net.
Definition list_fails (err : Thrown) (net : Network) : Network :=
  answering ListCoins (Rejected err) net.
Definition search_ok (candidates : list SearchResult.t) (net : Network) : Network :=
  answering (Search "") (ok (PArray candidates)) net.
Definition add_ok (net : Network) : Network := answering (Add "") (ok tt) net.
Definition add_fails (err : Thrown) (net : Network) : Network :=
  answering (Add "") (Rejected err) net.

Definition doge : SearchResult.t := SearchResult.mk "DOGE" "Dogecoin".
Definition btc : SearchResult.t := SearchResult.mk "BTC" "Bitcoin".
Definition eth : SearchResult.t := SearchResult.mk "ETH" "Ethereum".

(** The probe succeeds, then the list request is answered with status 503
    and an array body in which a non-default coin comes first. *)
Definition fallback_run : list Event :=
  [Settle 0 ping_ok; Settle 0 (list_fails (unavailable (ErrArray [DOGE; BTC])) unreachable)].

(** The initial fetch completes, then one poll period passes. *)
Definition first_fetch_run : list Event :=
  [Settle 0 ping_ok; Settle 0 (list_ok [BTC] unreachable)].
Definition poll_run : list Event :=
  first_fetch_run ++ [Elapse (Z.to_nat poll_interval)].


(** The user opens the dialog, types "do", the search is answered and the
    popup shows DOGE. *)
Definition popup_ready_run : list Event :=
  first_fetch_run ++
  [ClickAddCoin; Typing "do" 1; Elapse 300; Settle 0 (search_ok [doge] unreachable)].

(** Selecting a candidate, the add request being the next to settle. *)
Definition dialog_path (result : SearchResult.t) (net : Network) (w : World) : World :=
  settle (length (inflight w)) net
         (spawn (handleAddCrypto (SearchResult.symbol result)) w).
Definition popup_path (result : SearchResult.t) (net : Network) (w : World) : World :=
  settle (length (inflight w)) net (handleSelectSearchResult result w).

(** One millisecond before the first poll tick, the initial fetch done. *)
Definition before_first_poll : World :=
  mkWorld (ui (play first_fetch_run mount)) [] None poll_interval (poll_interval - 1)
          (calls (play first_fetch_run mount)).

(** An error response that names its reason. *)
Definition not_found : Thrown :=
  IsAxiosError (mkAxiosError (Some "ERR_BAD_REQUEST")
                             "Request failed with status code 404"
                             (Some (mkResponse (ErrOther (Some "Coin not found")
                                                         "{error:Coin not found}") 404))
                             true).

(** With the popup showing DOGE, the user selects it there and the add
    request is refused. *)
Definition popup_failure_run : list Event :=
  popup_ready_run ++ [ClickPopupItem 0; Settle 0 (add_fails not_found unreachable)].

(** What the last statements of the success path of [handleAddCrypto]
    leave. *)
Definition reset_after_add (s : UIState) : Prop :=
  isSearchDialogOpen s = false /\ searchTerm s = "" /\
  searchResults s = [] /\ error s = "".

(** The search call a debounced invocation with [query] at time [t]
    issues: none when the query is shorter than two characters. *)
Definition search_call_at (t : Z) (query : string) : list (Z * string) :=
  if (String.length query <? 2)%nat then [] else [(t, query)].

(* --------------------------------------------------------------------- *)
(** *** What is rendered, and notions for the properties of the event loop *)
(* --------------------------------------------------------------------- *)

(** [{error && <Alert ...>}]: the alert is rendered when the message is not
    the empty string. *)
Definition showsAlert (s : UIState) : bool :=
  match error s with
  | EmptyString => false
  | String _ _ => true
  end.

(** [{isLoading ? <CircularProgress /> : <TableContainer ...>}] *)
Definition showsSpinner (s : UIState) : bool := isLoading s.
Definition showsTable (s : UIState) : bool := negb (isLoading s).

(** The list requests among the calls issued, by their times. *)
Fixpoint list_calls (l : list (Z * Endpoint)) : list Z :=
  match l with
  | [] => []
  | (t, ListCoins) :: l' => t :: list_calls l'
  | _ :: l' => list_calls l'
  end.

(** The interval timer is armed for a time within the next period. *)
Definition poll_armed (w : World) : Prop :=
  clock w < pollDue w <= clock w + poll_interval.

(** The probe resolved with the expected sentinel. *)
Definition probe_ok (o : Settled (body Ping)) : bool :=
  match o with
  | Resolved pingResponse => code_is (data pingResponse) "ok"
  | Rejected _ => false
  end.

(** Outcomes of the list request that do not carry fallback data. *)
Definition no_fallback (e : Endpoint) : Settled (body e) -> Prop :=
  match e with
  | ListCoins => fun o => array_shaped o = false
  | _ => fun _ => True
  end.

Definition any_outcome (e : Endpoint) (o : Settled (body e)) : Prop := True.

(** The responses delivered by a sequence of events all satisfy
    [allowed]. *)
Definition delivers (allowed : forall e, Settled (body e) -> Prop) (ev : Event) : Prop :=
  match ev with
  | Settle _ net => forall e, allowed e (net e)
  | _ => True
  end.

Section Keeping.
Variable P : UIState -> Prop.
Variable allowed : forall e : Endpoint, Settled (body e) -> Prop.

(** An [async] function all of whose state updates keep [P], whatever the
    allowed responses it is resumed with. *)
Inductive keeps {A : Type} : Async A -> Prop :=
| keeps_ret : forall a, keeps (Ret a)
| keeps_update : forall f k,
    (forall s, P s -> P (f s)) -> keeps k -> keeps (Update f k)
| keeps_await : forall e k,
    (forall o, allowed e o -> keeps (k o)) -> keeps (Await e k).

Definition pending_keeps (pd : Pending) : Prop :=
  match pd with
  | Suspended e k => forall o, allowed e o -> keeps (k o)
  end.

(** [P] holds now and every request in flight resumes into code that keeps
    it. *)
Definition steady (w : World) : Prop :=
  P (ui w) /\ Forall pending_keeps (inflight w).
End Keeping.

(** At most ten candidates are stored. *)
Definition within_limit (s : UIState) : Prop := (length (searchResults s) <= 10)%nat.

(** The table is in default-first order. *)
Definition table_ordered (s : UIState) : Prop := defaults_precede (cryptocurrencies s).

(** Two queries typed 300 ms apart or more, both searches still in
    flight. *)
Definition two_searches_run : list Event :=
  [ClickAddCoin; Typing "do" 1; Elapse 300; Typing "dog" 1; Elapse 300].

(** A probe answered with another sentinel. *)
Definition ping_degraded : Network := answering Ping (ok (Some "degraded")) unreachable.

(** A candidate whose name starts with a capital outside [A]..[Z]
    (code unit 201, E with acute accent), and a query in small letters
    (code unit 233). *)
Definition ecole : SearchResult.t :=
  SearchResult.mk "ECL" (String (ascii_of_nat 201) "cole").
Definition ec_query : string := String (ascii_of_nat 233) "c".


(* ===================================================================== *)
(** ** Facts about the primitives *)
(* ===================================================================== *)

Section Strings.

Lemma prefix_app : forall a s : string,
  String.prefix a s = true <-> exists post, s = a ++ post.
Proof.
  induction a as [|c a IH]; intros s.
  - split; [intros _; exists s; reflexivity | intros _; destruct s; reflexivity].
  - destruct s as [|d s]; simpl.
    + split; [discriminate | intros [post H]; discriminate].
    + destruct (ascii_dec c d) as [->|ne].
      * rewrite IH. split; intros [post H]; exists post.
        -- now rewrite H.
        -- now inversion H.
      * split; [discriminate | intros [post H]; simpl in H; congruence].
Qed.

Lemma includes_spec : forall s sub : string,
  includes s sub = true <-> exists pre post, s = pre ++ sub ++ post.
Proof.
  induction s as [|c s IH]; intros sub; cbn [includes]; rewrite orb_true_iff.
  - split.
    + intros [H|H]; [|discriminate].
      apply prefix_app in H as [post H]. exists "", post. exact H.
    + intros [pre [post H]]. left. apply prefix_app.
      destruct pre; [exists post; exact H | discriminate].
  - rewrite prefix_app, IH. split.
    + intros [[post H]|[pre [post H]]].
      * exists "", post. exact H.
      * exists (String c pre), post. simpl. now rewrite H.
    + intros [pre [post H]]. destruct pre as [|d pre]; simpl in H.
      * left. exists post. exact H.
      * right. inversion H. exists pre, post. reflexivity.
Qed.

Lemma toLowerCase_app : forall a b : string,
  toLowerCase (a ++ b) = toLowerCase a ++ toLowerCase b.
Proof. induction a as [|c a IH]; intros b; simpl; [|rewrite IH]; reflexivity. Qed.

Lemma toLowerCase_split : forall x y s : string,
  toLowerCase s = x ++ y ->
  exists a b, s = a ++ b /\ toLowerCase a = x /\ toLowerCase b = y.
Proof.
  induction x as [|c x IH]; intros y s H; simpl in H.
  - exists "", s. auto.
  - destruct s as [|d s]; simpl in H; [discriminate|].
    inversion H as [[Hc Hs]]. destruct (IH _ _ Hs) as [a [b [E [Ha Hb]]]].
    exists (String d a), b. simpl. rewrite E, Ha. auto.
Qed.

Lemma includes_lower_spec : forall s q : string,
  includes (toLowerCase s) (toLowerCase q) = true <-> contains_ignoring_case s q.
Proof.
  intros s q. rewrite includes_spec. unfold contains_ignoring_case. split.
  - intros [pre' [post' H]].
    destruct (toLowerCase_split _ _ _ H) as [pre [rest [E [Hpre Hrest]]]].
    destruct (toLowerCase_split _ _ _ Hrest) as [mid [post [E' [Hmid Hpost]]]].
    exists pre, mid, post. subst. auto.
  - intros [pre [mid [post [E H]]]]. subst s.
    exists (toLowerCase pre), (toLowerCase post).
    now rewrite !toLowerCase_app, H.
Qed.

End Strings.

Section Sorting.
Local Open Scope list_scope.

Lemma sort_insert_default : forall x l,
  is_default x = true -> sort_insert by_default x l = x :: l.
Proof.
  intros x [|y l] Hx; simpl; [reflexivity|].
  unfold by_default. rewrite Hx. destruct (is_default y); reflexivity.
Qed.

Lemma sort_insert_non_default : forall x ds ns,
  Forall (fun c => is_default c = true) ds ->
  Forall (fun c => is_default c = false) ns ->
  is_default x = false ->
  sort_insert by_default x (ds ++ ns) = ds ++ x :: ns.
Proof.
  intros x ds ns Hds Hns Hx. induction Hds as [|d ds Hd _ IH]; simpl.
  - destruct Hns as [|n ns Hn _]; simpl; [reflexivity|].
    unfold by_default. rewrite Hx, Hn. reflexivity.
  - unfold by_default at 1. rewrite Hx, Hd. simpl. now rewrite IH.
Qed.

Lemma sort_by_default : forall l,
  sort by_default l = filter is_default l ++ filter non_default l.
Proof.
  induction l as [|c l IH]; [reflexivity|].
  change (sort by_default (c :: l)) with (sort_insert by_default c (sort by_default l)).
  rewrite IH. simpl. unfold non_default at 2.
  destruct (is_default c) eqn:Hc; simpl.
  - now apply sort_insert_default.
  - apply sort_insert_non_default; auto; apply Forall_forall; intros d Hd;
      apply filter_In in Hd as [_ Hd]; [exact Hd|].
    unfold non_default in Hd. now destruct (is_default d).
Qed.

Lemma filter_same : forall (p : Cryptocurrency.t -> bool) l,
  filter p (filter p l) = filter p l.
Proof.
  intros p. induction l as [|c l IH]; simpl; [reflexivity|].
  destruct (p c) eqn:E; simpl; [rewrite E, IH|]; auto.
Qed.

Lemma filter_disjoint : forall (p q : Cryptocurrency.t -> bool) l,
  (forall c, q c = true -> p c = false) -> filter p (filter q l) = [].
Proof.
  intros p q l H. induction l as [|c l IH]; simpl; [reflexivity|].
  destruct (q c) eqn:E; simpl; [rewrite (H _ E)|]; exact IH.
Qed.

Lemma partition_permutation : forall l,
  Permutation l (filter is_default l ++ filter non_default l).
Proof.
  induction l as [|c l IH]; [constructor|].
  cbn [filter]. unfold non_default at 1.
  destruct (is_default c); cbn [negb app].
  - apply perm_skip. exact IH.
  - apply Permutation_cons_app. exact IH.
Qed.

Lemma partition_defaults_precede : forall l,
  defaults_precede (filter is_default l ++ filter non_default l).
Proof.
  intros l i j a b Ha Hb Da Db.
  assert (Hi : (length (filter is_default l) <= i)%nat).
  { destruct (Nat.le_gt_cases (length (filter is_default l)) i) as [|lt]; [assumption|].
    rewrite nth_error_app1 in Ha by exact lt.
    apply nth_error_In, filter_In in Ha as [_ Ha]. congruence. }
  destruct (Nat.le_gt_cases (length (filter is_default l)) j) as [le|lt]; [|lia].
  rewrite nth_error_app2 in Hb by exact le.
  apply nth_error_In, filter_In in Hb as [_ Hb].
  unfold non_default in Hb. rewrite Db in Hb. discriminate.
Qed.

(** Order, stability and content determine the result: whatever stable
    algorithm the engine runs, it returns this list. *)
Lemma stable_order_unique : forall l l',
  defaults_precede l' ->
  filter is_default l' = filter is_default l ->
  filter non_default l' = filter non_default l ->
  l' = sort by_default l.
Proof.
  intros l l' Hord Hd Hn. rewrite sort_by_default, <- Hd, <- Hn. clear l Hd Hn.
  induction l' as [|c l' IH]; [reflexivity|].
  cbn [filter]. unfold non_default at 1.
  destruct (is_default c) eqn:Hc; cbn [negb app].
  - f_equal. apply IH. intros i j a b Ha Hb Da Db.
    specialize (Hord (S i) (S j) a b Ha Hb Da Db). lia.
  - assert (Hnone : filter is_default l' = []).
    { destruct (filter is_default l') as [|d r] eqn:E; [reflexivity|].
      assert (Hin : In d (filter is_default l')) by (rewrite E; now left).
      apply filter_In in Hin as [Hin Dd].
      apply In_nth_error in Hin as [j Hj].
      specialize (Hord 0%nat (S j) c d eq_refl Hj Hc Dd). lia. }
    rewrite Hnone. cbn [app]. f_equal.
    clear IH Hord. induction l' as [|d l' IH]; [reflexivity|].
    cbn [filter] in *. unfold non_default at 1.
    destruct (is_default d); cbn [negb]; [discriminate|].
    f_equal. now apply IH.
Qed.

End Sorting.

(* ===================================================================== *)
(** ** The tracked-coin list *)
(* ===================================================================== *)

Section TrackedList.
Local Open Scope list_scope.

Lemma exec_fetch : forall (net : Network) (s : UIState),
  exec net fetchCryptocurrencies s =
  (let '(s', log, a) :=
     exec net (fetch_settle (net ListCoins)) (setError "" (setIsLoading true s))
   in (s', ListCoins :: log, a)).
Proof.
  intros net s. unfold fetchCryptocurrencies. cbn.
  destruct (fetch_settle (net ListCoins)); reflexivity.
Qed.

(** C1. The tracked-coin list shown in the table is meant to keep every
    default-flagged coin before every other coin, and the success path
    sorts to that end.  The fallback path stores the array of an error
    response as received: after a 503 answer whose body lists a
    non-default coin first, the reachable state shows that coin before a
    default one. *)
Theorem fallback_list_not_default_first :
  reachable (play fallback_run mount) /\
  cryptocurrencies (ui (play fallback_run mount)) = [DOGE; BTC] /\
  default_first (cryptocurrencies (ui (play fallback_run mount))) = false /\
  ~ defaults_precede (cryptocurrencies (ui (play fallback_run mount))).
Proof.
  split; [exists fallback_run; reflexivity|].
  assert (E : cryptocurrencies (ui (play fallback_run mount)) = [DOGE; BTC])
    by reflexivity.
  rewrite E. repeat split.
  intros H. specialize (H 0%nat 1%nat DOGE BTC eq_refl eq_refl eq_refl eq_refl). lia.
Qed.

(** C2. After a successful list response the list shown is the response
    stably sorted by the default flag: default-flagged coins come before
    the others, and each of the two groups keeps the order it has in the
    response. *)
Theorem fetch_success_stable_sort :
  forall (net : Network) (s : UIState) (items : list Cryptocurrency.t) (st : Z),
    net ListCoins = Resolved (mkResponse (PArray items) st) ->
    defaults_precede (cryptocurrencies (final (exec net fetchCryptocurrencies s))) /\
    filter is_default (cryptocurrencies (final (exec net fetchCryptocurrencies s)))
      = filter is_default items /\
    filter non_default (cryptocurrencies (final (exec net fetchCryptocurrencies s)))
      = filter non_default items /\
    Permutation items (cryptocurrencies (final (exec net fetchCryptocurrencies s))) /\
    cryptocurrencies (final (exec net fetchCryptocurrencies s))
      = filter is_default items ++ filter non_default items.
Proof.
  intros net s items st H. rewrite exec_fetch, H. cbn.
  rewrite sort_by_default. repeat split.
  - apply partition_defaults_precede.
  - rewrite filter_app, filter_same, filter_disjoint, app_nil_r; [reflexivity|].
    intros c Hc. unfold non_default in Hc. now destruct (is_default c).
  - rewrite filter_app, filter_same, filter_disjoint; [reflexivity|].
    intros c Hc. unfold non_default. now rewrite Hc.
  - apply partition_permutation.
Qed.

Lemma fetch_success_stable_sort_witness :
  list_ok [DOGE; BTC; PEPE; ETH] unreachable ListCoins
    = Resolved (mkResponse (PArray [DOGE; BTC; PEPE; ETH]) 200) /\
  cryptocurrencies
    (final (exec (list_ok [DOGE; BTC; PEPE; ETH] unreachable)
                 fetchCryptocurrencies initialState))
  = filter is_default [DOGE; BTC; PEPE; ETH] ++ filter non_default [DOGE; BTC; PEPE; ETH].
Proof.
  split; [reflexivity|].
  apply (fetch_success_stable_sort (list_ok [DOGE; BTC; PEPE; ETH] unreachable)
           initialState [DOGE; BTC; PEPE; ETH] 200).
  reflexivity.
Defined.

(** C10. When the list request fails and the failure carries no
    array-shaped body (no response, a request that could not be set up, a
    non-axios error, or a response with another body), the tracked-coin
    list is what it was before the call; only the error message and the
    loading flag change. *)
Theorem fetch_failure_keeps_list :
  forall (net : Network) (s : UIState),
    fetch_failed (net ListCoins) = true ->
    array_shaped (net ListCoins) = false ->
    exists msg,
      final (exec net fetchCryptocurrencies s) =
      mkUI (cryptocurrencies s) (isSearchDialogOpen s) (searchTerm s)
           (searchResults s) msg false (anchorEl s).
Proof.
  intros net s Hf Ha. rewrite exec_fetch.
  destruct (net ListCoins) as [[d st]|[e|]]; cbn in *.
  - destruct d; [discriminate|]. eexists; reflexivity.
  - destruct (response e) as [[d st]|].
    + destruct d; [discriminate|]. eexists; reflexivity.
    + destruct (request e); eexists; reflexivity.
  - eexists; reflexivity.
Qed.

Lemma fetch_failure_keeps_list_witness :
  fetch_failed (list_fails timed_out unreachable ListCoins) = true /\
  array_shaped (list_fails timed_out unreachable ListCoins) = false /\
  exists msg,
    final (exec (list_fails timed_out unreachable) fetchCryptocurrencies
                (setCryptocurrencies [BTC; DOGE] initialState)) =
    mkUI [BTC; DOGE] false "" [] msg false None.
Proof.
  split; [reflexivity|]. split; [reflexivity|].
  apply (fetch_failure_keeps_list (list_fails timed_out unreachable)
           (setCryptocurrencies [BTC; DOGE] initialState)); reflexivity.
Defined.

End TrackedList.

(* ===================================================================== *)
(** ** Error message and loading flag *)
(* ===================================================================== *)

Section Messages.
Local Open Scope list_scope.

(** C4, as stated, fails: a list request that times out leaves the
    no-response message, which is not of the timed-out kind; only the
    connectivity probe has such a message. *)
Lemma list_timeout_reports_no_response :
  timeout ListCoins = Some 10000 /\
  error (final (exec (list_fails timed_out unreachable) fetchCryptocurrencies
                     initialState)) = msg_no_response /\
  timeout_class
    (error (final (exec (list_fails timed_out unreachable) fetchCryptocurrencies
                        initialState))) = false /\
  timeout_class msg_probe_timeout = true.
Proof. repeat split. Qed.

(** C4, amended. A list request that fails with the request sent and no
    response received, a timeout included, sets the no-response message
    (check the network connection) and clears the loading flag; the
    message is not of the timed-out kind. *)
Theorem fetch_no_response_message :
  forall (net : Network) (s : UIState) (e : AxiosError),
    net ListCoins = Rejected (IsAxiosError e) ->
    response e = None ->
    request e = true ->
    error (final (exec net fetchCryptocurrencies s)) = msg_no_response /\
    timeout_class (error (final (exec net fetchCryptocurrencies s))) = false /\
    isLoading (final (exec net fetchCryptocurrencies s)) = false.
Proof.
  intros net s e H Hresp Hreq. rewrite exec_fetch, H. cbn.
  rewrite Hresp, Hreq. repeat split.
Qed.

Lemma fetch_no_response_message_witness :
  code_is (code (mkAxiosError (Some "ECONNABORTED") "timeout exceeded" None true))
          "ECONNABORTED" = true /\
  error (final (exec (list_fails timed_out unreachable) fetchCryptocurrencies
                     initialState)) = msg_no_response /\
  timeout_class
    (error (final (exec (list_fails timed_out unreachable) fetchCryptocurrencies
                        initialState))) = false /\
  isLoading (final (exec (list_fails timed_out unreachable) fetchCryptocurrencies
                         initialState)) = false.
Proof.
  split; [reflexivity|].
  apply (fetch_no_response_message (list_fails timed_out unreachable) initialState
           (mkAxiosError (Some "ECONNABORTED") "timeout exceeded" None true));
    reflexivity.
Defined.

(** C5, as stated, fails: once the initial fetch has completed and the
    flag is false, the poll tick one minute later issues a second list
    request and sets the flag to true again. *)
Lemma poll_tick_sets_loading :
  isLoading (ui (play first_fetch_run mount)) = false /\
  map snd (calls (play poll_run mount)) = [Ping; ListCoins; ListCoins] /\
  isLoading (ui (play poll_run mount)) = true.
Proof. vm_compute. repeat split. Qed.

(** C5, amended. The loading flag is true from mount; every invocation
    of the list fetch sets it to true when it starts (the initial one,
    each poll tick and each re-fetch after a successful add) and to false
    when it settles, whatever the outcome. *)
Theorem loading_flag_every_fetch :
  forall (w : World) (s : UIState) (o : Settled (body ListCoins)) (r : Response unit),
    pollDue w <= clock w + 1 ->
    isLoading initialState = true /\
    advance fetchCryptocurrencies s
      = (setError "" (setIsLoading true s), Waiting ListCoins fetch_settle) /\
    (exists s', advance (fetch_settle o) s = (s', Finished tt) /\ isLoading s' = false) /\
    isLoading (fst (advance (add_settle (Resolved r)) s)) = true /\
    isLoading (ui (tick w)) = true.
Proof.
  intros w s o r Hdue. split; [reflexivity|]. split; [reflexivity|]. split; [|split].
  - destruct o as [[d st]|[e|]]; cbn.
    + destruct d; eexists; split; reflexivity.
    + destruct (response e) as [[d st]|]; cbn.
      * destruct d; eexists; split; reflexivity.
      * destruct (request e); eexists; split; reflexivity.
    + eexists; split; reflexivity.
  - reflexivity.
  - unfold tick. cbn [pollDue clock ui inflight debouncedSearch calls].
    apply Z.leb_le in Hdue. rewrite Hdue.
    unfold spawn at 2. cbn.
    destruct (debounce_due (clock w + 1) (debouncedSearch w)) as [q|]; [|reflexivity].
    unfold searchCryptocurrencies.
    destruct (String.length q <? 2)%nat; reflexivity.
Qed.

Lemma before_first_poll_reached :
  play [Elapse (Z.to_nat (poll_interval - 1))] (play first_fetch_run mount)
  = before_first_poll.
Proof. vm_compute. reflexivity. Qed.

Lemma loading_flag_every_fetch_witness :
  pollDue before_first_poll <= clock before_first_poll + 1 /\
  isLoading (ui before_first_poll) = false /\
  isLoading (ui (tick before_first_poll)) = true.
Proof.
  split; [vm_compute; discriminate|]. split; [reflexivity|].
  apply (loading_flag_every_fetch before_first_poll initialState
           (ok (PArray [BTC])) (mkResponse tt 200)).
  vm_compute; discriminate.
Defined.




End Messages.

(* ===================================================================== *)
(** ** Search *)
(* ===================================================================== *)

Section SearchResults.
Local Open Scope list_scope.

Lemma matches_query_spec : forall (query : string) (result : SearchResult.t),
  matches_query query result = true <->
  contains_ignoring_case (SearchResult.symbol result) query \/
  contains_ignoring_case (SearchResult.name result) query.
Proof.
  intros query result. unfold matches_query.
  now rewrite orb_true_iff, !includes_lower_spec.
Qed.

Lemma firstn_incl : forall (A : Type) (n : nat) (l : list A), incl (firstn n l) l.
Proof.
  intros A n l x Hx. rewrite <- (firstn_skipn n l). apply in_or_app. now left.
Qed.

(** C7. A successful search with a query of at least two characters
    stores the candidates of the response whose symbol or name contains
    the query, letter case ignored, in response order and cut after the
    tenth; what is stored is part of the response and has at most ten
    entries. *)
Theorem search_success_filters :
  forall (net : Network) (s : UIState) (query : string)
         (items : list SearchResult.t) (st : Z),
    (2 <= String.length query)%nat ->
    net (Search query) = Resolved (mkResponse (PArray items) st) ->
    searchResults (final (exec net (searchCryptocurrencies query) s))
      = firstn 10 (filter (matches_query query) items) /\
    (forall result,
        matches_query query result = true <->
        contains_ignoring_case (SearchResult.symbol result) query \/
        contains_ignoring_case (SearchResult.name result) query) /\
    (forall result,
        In result (searchResults (final (exec net (searchCryptocurrencies query) s))) ->
        In result items /\
        (contains_ignoring_case (SearchResult.symbol result) query \/
         contains_ignoring_case (SearchResult.name result) query)) /\
    (length (searchResults (final (exec net (searchCryptocurrencies query) s))) <= 10)%nat /\
    issued (exec net (searchCryptocurrencies query) s) = [Search query].
Proof.
  intros net s query items st Hlen H.
  assert (E : exec net (searchCryptocurrencies query) s =
              (setSearchResults (firstn 10 (filter (matches_query query) items)) s,
               [Search query], tt)).
  { unfold searchCryptocurrencies.
    apply Nat.ltb_ge in Hlen. rewrite Hlen. cbn. rewrite H. reflexivity. }
  rewrite E. cbn [final issued fst snd searchResults setSearchResults].
  split; [reflexivity|]. split; [apply matches_query_spec|].
  split; [|split; [apply firstn_le_length | reflexivity]].
  intros result Hin. apply firstn_incl, filter_In in Hin as [Hin Hm].
  split; [exact Hin | now apply matches_query_spec].
Qed.

Lemma search_success_filters_witness :
  (2 <= String.length "bt")%nat /\
  searchResults
    (final (exec (search_ok [btc; eth] unreachable) (searchCryptocurrencies "bt")
                 initialState))
  = firstn 10 (filter (matches_query "bt") [btc; eth]) /\
  filter (matches_query "bt") [btc; eth] = [btc] /\
  (2 <= String.length ec_query)%nat /\
  searchResults
    (final (exec (search_ok [btc; ecole] unreachable) (searchCryptocurrencies ec_query)
                 initialState))
  = [ecole].
Proof.
  split; [simpl; lia|]. split; [|split; [reflexivity|]].
  - apply (search_success_filters (search_ok [btc; eth] unreachable) initialState
             "bt" [btc; eth] 200); [simpl; lia | reflexivity].
  - split; [simpl; lia|].
    destruct (search_success_filters (search_ok [btc; ecole] unreachable) initialState
                ec_query [btc; ecole] 200 ltac:(simpl; lia) eq_refl) as [H _].
    rewrite H. reflexivity.
Defined.

End SearchResults.

(* ===================================================================== *)
(** ** Adding a coin *)
(* ===================================================================== *)

Section AddCoin.
Local Open Scope list_scope.

Lemma nth_error_snoc : forall (A : Type) (l : list A) (x : A),
  nth_error (l ++ [x]) (length l) = Some x.
Proof. intros A l x. rewrite nth_error_app2, Nat.sub_diag; [reflexivity | lia]. Qed.

Lemma remove_nth_snoc : forall (A : Type) (l : list A) (x : A),
  remove_nth (length l) (l ++ [x]) = l.
Proof. intros A l x. induction l as [|y l IH]; simpl; [|rewrite IH]; reflexivity. Qed.

Lemma refetch_then_reset : forall (o : Settled (body ListCoins)) (s : UIState),
  exists s',
    advance (fetch_settle o ;;
             call (setIsSearchDialogOpen false) ;;
             call (setSearchResults []) ;;
             call (setSearchTerm "") ;;
             call (setError "")) s = (s', Finished tt) /\
    reset_after_add s'.
Proof.
  intros o s. unfold reset_after_add.
  destruct o as [[d st]|[e|]]; cbn.
  - destruct d; eexists; repeat split.
  - destruct (response e) as [[d st]|]; cbn.
    + destruct d; eexists; repeat split.
    + destruct (request e); eexists; repeat split.
  - eexists; repeat split.
Qed.

(** C8. A successful add issues exactly one list request after it; once
    that request has settled, whatever it brought and whatever happened
    in between, the dialog is closed, the search text and the candidate
    list are empty and the error message is cleared. *)
Theorem add_success_refetches_and_resets :
  forall (net : Network) (s : UIState) (symbol : string) (r : Response unit),
    net (Add symbol) = Resolved r ->
    issued (exec net (handleAddCrypto symbol) s) = [Add symbol; ListCoins] /\
    reset_after_add (final (exec net (handleAddCrypto symbol) s)) /\
    exists k,
      advance (add_settle (Resolved r)) s
        = (setError "" (setIsLoading true s), Waiting ListCoins k) /\
      forall (o : Settled (body ListCoins)) (s2 : UIState),
        exists s3, advance (k o) s2 = (s3, Finished tt) /\ reset_after_add s3.
Proof.
  intros net s symbol r H.
  assert (E : exists s',
             exec net (handleAddCrypto symbol) s = (s', [Add symbol; ListCoins], tt) /\
             reset_after_add s').
  { unfold handleAddCrypto. cbn [exec]. rewrite H.
    unfold add_settle, fetchCryptocurrencies, reset_after_add. cbn.
    destruct (net ListCoins) as [[d st]|[e|]]; cbn.
    - destruct d; eexists; repeat split.
    - destruct (response e) as [[d st]|]; cbn.
      + destruct d; eexists; repeat split.
      + destruct (request e); eexists; repeat split.
    - eexists; repeat split. }
  destruct E as [s' [E R]]. rewrite E. split; [reflexivity|]. split; [exact R|].
  eexists. split; [reflexivity|]. intros o s2. cbn beta.
  apply (refetch_then_reset o s2).
Qed.

Lemma add_success_refetches_and_resets_witness :
  add_ok (list_ok [BTC; DOGE] unreachable) (Add "DOGE") = Resolved (mkResponse tt 200) /\
  issued (exec (add_ok (list_ok [BTC; DOGE] unreachable)) (handleAddCrypto "DOGE")
               (setIsSearchDialogOpen true (setSearchTerm "do" initialState)))
    = [Add "DOGE"; ListCoins] /\
  reset_after_add
    (final (exec (add_ok (list_ok [BTC; DOGE] unreachable)) (handleAddCrypto "DOGE")
                 (setIsSearchDialogOpen true (setSearchTerm "do" initialState)))).
Proof.
  split; [reflexivity|].
  destruct (add_success_refetches_and_resets
              (add_ok (list_ok [BTC; DOGE] unreachable))
              (setIsSearchDialogOpen true (setSearchTerm "do" initialState))
              "DOGE" (mkResponse tt 200) eq_refl) as [Hi [Hr _]].
  split; [exact Hi | exact Hr].
Defined.

(** C3, as stated, fails on the popup path: with the dialog open and
    "do" typed, selecting DOGE in the popup clears the search text and the
    candidates at once, and the refusal of the add does not bring them
    back. *)
Lemma popup_add_failure_clears_search_text :
  reachable (play popup_failure_run mount) /\
  isSearchDialogOpen (ui (play popup_ready_run mount)) = true /\
  searchTerm (ui (play popup_ready_run mount)) = "do" /\
  searchResults (ui (play popup_ready_run mount)) = [doge] /\
  error (ui (play popup_failure_run mount)) = "Coin not found" /\
  isSearchDialogOpen (ui (play popup_failure_run mount)) = true /\
  searchTerm (ui (play popup_failure_run mount)) = "" /\
  searchTerm (ui (play popup_failure_run mount))
    <> searchTerm (ui (play popup_ready_run mount)).
Proof.
  split; [exists popup_failure_run; reflexivity|].
  vm_compute. repeat split. discriminate.
Qed.

(** C3, amended. A failing add only sets the error message: on both
    selection paths the dialog-open flag keeps its value, so an open
    dialog stays open.  Selected in the dialog list, the search text and
    the candidates are left as they were; selected in the popup, the
    handler has already cleared the search text, the candidates and the
    anchor, whatever the add returns. *)
Theorem add_failure_effects :
  forall (net : Network) (w : World) (result : SearchResult.t) (err : Thrown),
    net (Add (SearchResult.symbol result)) = Rejected err ->
    (exists msg, ui (dialog_path result net w) = setError msg (ui w)) /\
    isSearchDialogOpen (ui (dialog_path result net w)) = isSearchDialogOpen (ui w) /\
    searchTerm (ui (dialog_path result net w)) = searchTerm (ui w) /\
    searchResults (ui (dialog_path result net w)) = searchResults (ui w) /\
    isSearchDialogOpen (ui (popup_path result net w)) = isSearchDialogOpen (ui w) /\
    searchTerm (ui (popup_path result net w)) = "" /\
    searchResults (ui (popup_path result net w)) = [] /\
    anchorEl (ui (popup_path result net w)) = None.
Proof.
  intros net w result err H.
  unfold dialog_path, popup_path, handleSelectSearchResult, settle, render.
  unfold spawn at 2 4. cbn -[nth_error remove_nth].
  rewrite nth_error_snoc, remove_nth_snoc, H.
  unfold spawn. destruct err as [e|]; cbn; repeat split; eexists; reflexivity.
Qed.

Lemma add_failure_effects_witness :
  add_fails not_found unreachable (Add (SearchResult.symbol doge)) = Rejected not_found /\
  searchTerm (ui (play popup_ready_run mount)) = "do" /\
  searchTerm (ui (dialog_path doge (add_fails not_found unreachable)
                              (play popup_ready_run mount))) = "do" /\
  searchTerm (ui (popup_path doge (add_fails not_found unreachable)
                             (play popup_ready_run mount))) = "".
Proof.
  split; [reflexivity|]. split; [reflexivity|].
  destruct (add_failure_effects (add_fails not_found unreachable)
              (play popup_ready_run mount) doge not_found eq_refl)
    as [_ [_ [Hd [_ [_ [Hp _]]]]]].
  split; [rewrite Hd; reflexivity | exact Hp].
Defined.

End AddCoin.

(* ===================================================================== *)
(** ** Debounced search *)
(* ===================================================================== *)

Section Debounce.
Local Open Scope list_scope.

Lemma search_calls_app : forall l l',
  search_calls (l ++ l') = search_calls l ++ search_calls l'.
Proof.
  induction l as [|[t e] l IH]; intros l'; simpl; [reflexivity|].
  destruct e; simpl; now rewrite IH.
Qed.

Ltac tick_cases w :=
  unfold tick, debounce_due;
  cbn [ui inflight debouncedSearch pollDue clock calls];
  destruct (pollDue w <=? clock w + 1);
  cbn [ui inflight debouncedSearch pollDue clock calls spawn advance
       fetchCryptocurrencies bind call await].

Lemma tick_clock : forall w, clock (tick w) = clock w + 1.
Proof.
  intros w. tick_cases w;
    destruct (debouncedSearch w) as [[d q]|]; try reflexivity;
    destruct (d <=? clock w + 1); try reflexivity;
    unfold spawn, searchCryptocurrencies;
    destruct (String.length q <? 2)%nat; reflexivity.
Qed.

Lemma tick_dialog : forall w,
  isSearchDialogOpen (ui (tick w)) = isSearchDialogOpen (ui w).
Proof.
  intros w. tick_cases w;
    destruct (debouncedSearch w) as [[d q]|]; try reflexivity;
    destruct (d <=? clock w + 1); try reflexivity;
    unfold spawn, searchCryptocurrencies;
    destruct (String.length q <? 2)%nat; reflexivity.
Qed.

Lemma tick_idle : forall w,
  debouncedSearch w = None ->
  debouncedSearch (tick w) = None /\
  search_calls (calls (tick w)) = search_calls (calls w).
Proof.
  intros w H. tick_cases w; rewrite H; cbn; split; try reflexivity.
  now rewrite search_calls_app, app_nil_r.
Qed.

Lemma tick_waiting : forall w d q,
  debouncedSearch w = Some (d, q) -> clock w + 1 < d ->
  debouncedSearch (tick w) = Some (d, q) /\
  search_calls (calls (tick w)) = search_calls (calls w).
Proof.
  intros w d q H Hlt. apply Z.leb_gt in Hlt.
  tick_cases w; rewrite H, Hlt; cbn; split; try reflexivity; try exact H.
  now rewrite search_calls_app, app_nil_r.
Qed.

Lemma tick_fires : forall w d q,
  debouncedSearch w = Some (d, q) -> d <= clock w + 1 ->
  debouncedSearch (tick w) = None /\
  search_calls (calls (tick w))
    = search_calls (calls w) ++ search_call_at (clock w + 1) q.
Proof.
  intros w d q H Hle. apply Z.leb_le in Hle. unfold search_call_at.
  tick_cases w; rewrite H, Hle;
    unfold spawn, searchCryptocurrencies;
    destruct (String.length q <? 2)%nat; cbn; split; try reflexivity;
    rewrite ?search_calls_app; cbn; rewrite ?app_nil_r; reflexivity.
Qed.

Lemma elapse_succ : forall n w, Nat.iter (S n) tick w = tick (Nat.iter n tick w).
Proof. reflexivity. Qed.

Lemma elapse_clock : forall n w, clock (Nat.iter n tick w) = clock w + Z.of_nat n.
Proof.
  induction n as [|n IH]; intros w; [simpl; lia|].
  rewrite elapse_succ, tick_clock, IH. lia.
Qed.

Lemma elapse_dialog : forall n w,
  isSearchDialogOpen (ui (Nat.iter n tick w)) = isSearchDialogOpen (ui w).
Proof.
  induction n as [|n IH]; intros w; [reflexivity|].
  now rewrite elapse_succ, tick_dialog, IH.
Qed.

Lemma elapse_waiting : forall n w d q,
  debouncedSearch w = Some (d, q) -> clock w + Z.of_nat n < d ->
  debouncedSearch (Nat.iter n tick w) = Some (d, q) /\
  search_calls (calls (Nat.iter n tick w)) = search_calls (calls w).
Proof.
  induction n as [|n IH]; intros w d q H Hlt; [split; [exact H | reflexivity]|].
  destruct (IH w d q H ltac:(lia)) as [Hd Hc].
  rewrite elapse_succ.
  destruct (tick_waiting _ d q Hd) as [Hd' Hc'].
  { rewrite elapse_clock. lia. }
  split; [exact Hd' | now rewrite Hc', Hc].
Qed.

Lemma elapse_fires : forall n w d q,
  debouncedSearch w = Some (d, q) -> clock w < d -> d <= clock w + Z.of_nat n ->
  debouncedSearch (Nat.iter n tick w) = None /\
  search_calls (calls (Nat.iter n tick w))
    = search_calls (calls w) ++ search_call_at d q.
Proof.
  induction n as [|n IH]; intros w d q H Hlt Hle; [simpl in Hle; lia|].
  rewrite elapse_succ.
  destruct (Z_le_gt_dec d (clock w + Z.of_nat n)) as [fired|pending].
  - destruct (IH w d q H Hlt fired) as [Hd Hc].
    destruct (tick_idle _ Hd) as [Hd' Hc'].
    split; [exact Hd' | now rewrite Hc', Hc].
  - destruct (elapse_waiting n w d q H ltac:(lia)) as [Hd Hc].
    destruct (tick_fires _ d q Hd) as [Hd' Hc'].
    { rewrite elapse_clock. lia. }
    split; [exact Hd'|].
    rewrite Hc', Hc, elapse_clock.
    replace (clock w + Z.of_nat n + 1) with d by lia. reflexivity.
Qed.

Lemma typing_rearms : forall w text target,
  isSearchDialogOpen (ui w) = true ->
  debouncedSearch (handle w (Typing text target)) = Some (clock w + 300, text) /\
  clock (handle w (Typing text target)) = clock w /\
  calls (handle w (Typing text target)) = calls w /\
  isSearchDialogOpen (ui (handle w (Typing text target))) = true /\
  searchTerm (ui (handle w (Typing text target))) = text.
Proof.
  intros w text target H. cbn [handle]. rewrite H. cbn. rewrite H. repeat split.
Qed.

Lemma burst_from_armed : forall target rest w text quiet,
  debouncedSearch w = Some (clock w + 300, text) ->
  isSearchDialogOpen (ui w) = true ->
  Forall (fun p => (fst p < 300)%nat) rest ->
  (300 <= quiet)%nat ->
  search_calls (calls (play (burst target rest ++ [Elapse quiet]) w))
  = search_calls (calls w)
    ++ search_call_at (clock w + burst_span rest + 300) (burst_last text rest).
Proof.
  intros target. induction rest as [|[pause next] rest IH];
    intros w text quiet Harmed Hopen Hgaps Hquiet.
  - cbn [burst app play fold_left handle burst_span burst_last].
    destruct (elapse_fires quiet w _ _ Harmed) as [_ Hc]; [lia | lia |].
    rewrite Hc. now rewrite Z.add_0_r.
  - inversion Hgaps as [|p ps Hp Hrest]; subst. cbn [fst] in Hp.
    cbn [burst app play fold_left burst_span burst_last].
    change (fold_left handle (burst target rest ++ [Elapse quiet])
              (handle (handle w (Elapse pause)) (Typing next target)))
      with (play (burst target rest ++ [Elapse quiet])
              (handle (handle w (Elapse pause)) (Typing next target))).
    change (handle w (Elapse pause)) with (Nat.iter pause tick w).
    destruct (elapse_waiting pause w _ _ Harmed) as [_ Hc]; [lia|].
    assert (Hopen' : isSearchDialogOpen (ui (Nat.iter pause tick w)) = true)
      by now rewrite elapse_dialog.
    destruct (typing_rearms (Nat.iter pause tick w) next target Hopen')
      as [Hd [Hk [Hcalls [Ho _]]]].
    rewrite (IH _ next quiet); try assumption.
    + rewrite Hcalls, Hc, Hk, elapse_clock. f_equal. f_equal. lia.
    + now rewrite Hk.
Qed.

(** C9. Keystrokes that each arrive less than 300 ms after the previous
    one lead to one invocation of the search, 300 ms after the last
    keystroke and with its text; so at most one search request is issued
    for the burst (none when that text is shorter than two
    characters). *)
Theorem debounce_burst_single_search :
  forall (w : World) (target : nat) (first : string)
         (rest : list (nat * string)) (quiet : nat),
    isSearchDialogOpen (ui w) = true ->
    Forall (fun p => (fst p < 300)%nat) rest ->
    (300 <= quiet)%nat ->
    search_calls
      (calls (play (Typing first target :: burst target rest ++ [Elapse quiet]) w))
    = search_calls (calls w)
      ++ search_call_at (clock w + burst_span rest + 300) (burst_last first rest) /\
    (length (search_call_at (clock w + burst_span rest + 300)
                            (burst_last first rest)) <= 1)%nat.
Proof.
  intros w target first rest quiet Hopen Hgaps Hquiet. split.
  - destruct (typing_rearms w first target Hopen) as [Hd [Hk [Hcalls [Ho _]]]].
    change (play (Typing first target :: burst target rest ++ [Elapse quiet]) w)
      with (play (burst target rest ++ [Elapse quiet]) (handle w (Typing first target))).
    rewrite (burst_from_armed target rest _ first quiet); try assumption.
    + now rewrite Hcalls, Hk.
    + now rewrite Hk.
  - unfold search_call_at. destruct (String.length _ <? 2)%nat; simpl; lia.
Qed.

Lemma debounce_burst_single_search_witness :
  isSearchDialogOpen (ui (play [ClickAddCoin] mount)) = true /\
  Forall (fun p => (fst p < 300)%nat) [(120%nat, "do"); (299%nat, "dog")] /\
  search_calls
    (calls (play (Typing "d" 1 :: burst 1 [(120%nat, "do"); (299%nat, "dog")]
                    ++ [Elapse 300])
                 (play [ClickAddCoin] mount)))
  = [(719, "dog")].
Proof.
  split; [reflexivity|].
  assert (G : Forall (fun p => (fst p < 300)%nat) [(120%nat, "do"); (299%nat, "dog")])
    by (repeat constructor; simpl; lia).
  split; [exact G|].
  destruct (debounce_burst_single_search (play [ClickAddCoin] mount) 1 "d"
              [(120%nat, "do"); (299%nat, "dog")] 300 eq_refl G (le_n 300))
    as [H _].
  rewrite H. reflexivity.
Defined.

End Debounce.

(* ===================================================================== *)
(** ** The poll timer *)
(* ===================================================================== *)

Section Polling.
Local Open Scope list_scope.

Lemma list_calls_app : forall l l',
  list_calls (l ++ l') = list_calls l ++ list_calls l'.
Proof.
  induction l as [|[t e] l IH]; intros l'; simpl; [reflexivity|].
  destruct e; simpl; now rewrite IH.
Qed.

Lemma spawn_times : forall (p : Async unit) (w : World),
  clock (spawn p w) = clock w /\ pollDue (spawn p w) = pollDue w /\
  debouncedSearch (spawn p w) = debouncedSearch w.
Proof.
  intros p w. unfold spawn.
  destruct (advance p (ui w)) as [s [a|e k]]; repeat split.
Qed.

Lemma settle_times : forall i net w,
  clock (settle i net w) = clock w /\ pollDue (settle i net w) = pollDue w /\
  debouncedSearch (settle i net w) = debouncedSearch w.
Proof.
  intros i net w. unfold settle.
  destruct (nth_error (inflight w) i) as [[e k]|]; [|repeat split].
  exact (spawn_times (k (net e))
           (mkWorld (ui w) (remove_nth i (inflight w)) (debouncedSearch w)
                    (pollDue w) (clock w) (calls w))).
Qed.

Ltac poll_cases w :=
  unfold tick, debounce_due;
  cbn [ui inflight debouncedSearch pollDue clock calls];
  destruct (pollDue w <=? clock w + 1) eqn:Hpoll;
  cbn [ui inflight debouncedSearch pollDue clock calls spawn advance
       fetchCryptocurrencies bind call await];
  destruct (debouncedSearch w) as [[d q]|];
  [ destruct (d <=? clock w + 1);
    [ unfold spawn, searchCryptocurrencies;
      destruct (String.length q <? 2)%nat |] | |
    destruct (d <=? clock w + 1);
    [ unfold spawn, searchCryptocurrencies;
      destruct (String.length q <? 2)%nat |] | ];
  cbn [ui inflight debouncedSearch pollDue clock calls advance bind call await].

Lemma tick_poll_waiting : forall w,
  clock w + 1 < pollDue w ->
  pollDue (tick w) = pollDue w /\
  list_calls (calls (tick w)) = list_calls (calls w) /\
  isLoading (ui (tick w)) = isLoading (ui w) /\
  error (ui (tick w)) = error (ui w).
Proof.
  intros w H. apply Z.leb_gt in H.
  poll_cases w; try congruence; repeat split;
    rewrite ?list_calls_app; cbn; rewrite ?app_nil_r; reflexivity.
Qed.

Lemma tick_poll_fires : forall w,
  pollDue w <= clock w + 1 ->
  pollDue (tick w) = pollDue w + poll_interval /\
  list_calls (calls (tick w)) = list_calls (calls w) ++ [clock w + 1] /\
  isLoading (ui (tick w)) = true.
Proof.
  intros w H. apply Z.leb_le in H.
  poll_cases w; try congruence; repeat split;
    rewrite ?list_calls_app; cbn; rewrite ?app_nil_r; reflexivity.
Qed.

Lemma tick_table : forall w,
  cryptocurrencies (ui (tick w)) = cryptocurrencies (ui w) /\
  searchTerm (ui (tick w)) = searchTerm (ui w) /\
  anchorEl (ui (tick w)) = anchorEl (ui w).
Proof. intros w. poll_cases w; repeat split. Qed.

Lemma tick_poll_armed : forall w, poll_armed w -> poll_armed (tick w).
Proof.
  intros w [Hlo Hhi]. unfold poll_armed. rewrite tick_clock.
  destruct (Z_le_gt_dec (pollDue w) (clock w + 1)) as [due|later].
  - destruct (tick_poll_fires w due) as [-> _]. unfold poll_interval in *. lia.
  - destruct (tick_poll_waiting w ltac:(lia)) as [-> _]. unfold poll_interval in *. lia.
Qed.

Lemma elapse_poll_armed : forall n w, poll_armed w -> poll_armed (Nat.iter n tick w).
Proof.
  induction n as [|n IH]; intros w H; [exact H|].
  rewrite elapse_succ. apply tick_poll_armed, IH, H.
Qed.

Lemma handle_poll_armed : forall ev w, poll_armed w -> poll_armed (handle w ev).
Proof.
  intros ev w H. destruct ev as [ms|i net| | |text target|i|i|]; cbn [handle].
  - now apply elapse_poll_armed.
  - unfold poll_armed. destruct (settle_times i net w) as [-> [-> _]]. exact H.
  - exact H.
  - destruct (isSearchDialogOpen (ui w)); exact H.
  - destruct (isSearchDialogOpen (ui w)); exact H.
  - destruct (isSearchDialogOpen (ui w)); [|exact H].
    destruct (nth_error (searchResults (ui w)) i); [|exact H].
    unfold poll_armed. destruct (spawn_times (handleAddCrypto (SearchResult.symbol t)) w)
      as [-> [-> _]]. exact H.
  - destruct (popup_shown (ui w)); [|exact H].
    destruct (nth_error (searchResults (ui w)) i); [|exact H].
    unfold poll_armed, handleSelectSearchResult, render.
    cbn [clock pollDue].
    destruct (spawn_times (handleAddCrypto (SearchResult.symbol t)) w)
      as [-> [-> _]]. exact H.
  - destruct (popup_shown (ui w)); exact H.
Qed.

(** X1. In every reachable state the interval timer is armed for a time
    within the next 60 seconds: no sequence of responses, clicks or
    keystrokes disarms or delays it. *)
Theorem poll_timer_always_armed :
  forall w : World, reachable w -> clock w < pollDue w <= clock w + 60000.
Proof.
  intros w [evs <-].
  assert (G : forall evs w0, poll_armed w0 -> poll_armed (play evs w0)).
  { clear evs. induction evs as [|ev evs IH]; intros w0 H0; [exact H0|].
    apply IH, handle_poll_armed, H0. }
  apply (G evs mount). unfold poll_armed.
  change (clock mount) with 0. change (pollDue mount) with 60000.
  unfold poll_interval. lia.
Qed.

Lemma poll_timer_always_armed_witness :
  reachable (play poll_run mount) /\
  clock (play poll_run mount) < pollDue (play poll_run mount)
    <= clock (play poll_run mount) + 60000.
Proof.
  assert (R : reachable (play poll_run mount)) by (exists poll_run; reflexivity).
  split; [exact R|]. exact (poll_timer_always_armed _ R).
Defined.

Lemma elapse_poll_waiting : forall n w,
  clock w + Z.of_nat n < pollDue w ->
  pollDue (Nat.iter n tick w) = pollDue w /\
  list_calls (calls (Nat.iter n tick w)) = list_calls (calls w).
Proof.
  induction n as [|n IH]; intros w H; [split; reflexivity|].
  destruct (IH w ltac:(lia)) as [Hp Hc]. rewrite elapse_succ.
  destruct (tick_poll_waiting (Nat.iter n tick w)) as [Hp' [Hc' _]].
  { rewrite elapse_clock, Hp. lia. }
  split; [now rewrite Hp', Hp | now rewrite Hc', Hc].
Qed.

Lemma elapse_poll_fires : forall n w,
  clock w < pollDue w -> pollDue w <= clock w + Z.of_nat n ->
  clock w + Z.of_nat n < pollDue w + poll_interval ->
  pollDue (Nat.iter n tick w) = pollDue w + poll_interval /\
  list_calls (calls (Nat.iter n tick w)) = list_calls (calls w) ++ [pollDue w].
Proof.
  induction n as [|n IH]; intros w Hlt Hle Hnext; [simpl in Hle; lia|].
  rewrite elapse_succ.
  destruct (Z_le_gt_dec (pollDue w) (clock w + Z.of_nat n)) as [fired|pending].
  - destruct (IH w Hlt fired ltac:(lia)) as [Hp Hc].
    destruct (tick_poll_waiting (Nat.iter n tick w)) as [Hp' [Hc' _]].
    { rewrite elapse_clock, Hp. lia. }
    split; [now rewrite Hp', Hp | now rewrite Hc', Hc].
  - destruct (elapse_poll_waiting n w ltac:(lia)) as [Hp Hc].
    destruct (tick_poll_fires (Nat.iter n tick w)) as [Hp' [Hc' _]].
    { rewrite elapse_clock, Hp. lia. }
    split; [now rewrite Hp', Hp|].
    rewrite Hc', Hc, elapse_clock. f_equal. f_equal. lia.
Qed.

(** X2. Over one full period of 60 seconds with no other event, the interval
    timer issues exactly one list request, at the time it was armed for;
    requests in flight and the debounced search do not interfere. *)
Theorem one_list_request_per_period :
  forall w : World,
    clock w < pollDue w <= clock w + 60000 ->
    list_calls (calls (handle w (Elapse (Z.to_nat poll_interval))))
    = list_calls (calls w) ++ [pollDue w] /\
    pollDue (handle w (Elapse (Z.to_nat poll_interval))) = pollDue w + 60000.
Proof.
  intros w [Hlo Hhi]. cbn [handle].
  destruct (elapse_poll_fires (Z.to_nat poll_interval) w) as [Hp Hc];
    unfold poll_interval in *; try lia.
  split; [exact Hc | exact Hp].
Qed.

Lemma one_list_request_per_period_witness :
  clock (play first_fetch_run mount) < pollDue (play first_fetch_run mount)
    <= clock (play first_fetch_run mount) + 60000 /\
  list_calls (calls (handle (play first_fetch_run mount) (Elapse (Z.to_nat poll_interval))))
  = [0; 60000].
Proof.
  assert (A : clock (play first_fetch_run mount) < pollDue (play first_fetch_run mount)
              <= clock (play first_fetch_run mount) + 60000)
    by (change (clock (play first_fetch_run mount)) with 0;
        change (pollDue (play first_fetch_run mount)) with 60000; lia).
  split; [exact A|].
  destruct (one_list_request_per_period (play first_fetch_run mount) A) as [H _].
  rewrite H. reflexivity.
Defined.

End Polling.

(* ===================================================================== *)
(** ** The connectivity probe *)
(* ===================================================================== *)

Section Probe.
Local Open Scope list_scope.

Lemma settle_at : forall (w : World) (i : nat) (e : Endpoint)
                        (k : Settled (body e) -> Async unit) (net : Network),
  nth_error (inflight w) i = Some (Suspended e k) ->
  settle i net w
  = spawn (k (net e))
          (mkWorld (ui w) (remove_nth i (inflight w)) (debouncedSearch w)
                   (pollDue w) (clock w) (calls w)).
Proof. intros w i e k net H. unfold settle. rewrite H. reflexivity. Qed.


(** X3. [initializeApp] issues the list request exactly when the probe
    resolves with the status "ok"; after any other answer, or none, the
    probe is the only call it makes. *)
Theorem initial_fetch_iff_probe_ok :
  forall (net : Network) (s : UIState),
    issued (exec net initializeApp s)
    = if probe_ok (net Ping) then [Ping; ListCoins] else [Ping].
Proof.
  intros net s. unfold initializeApp, checkServerConnectivity, probe_ok. cbn.
  destruct (net Ping) as [[d st]|[e|]]; cbn.
  - destruct (code_is d "ok"); [|reflexivity].
    cbn. destruct (net ListCoins) as [[d' st']|[e|]]; cbn.
    + destruct d'; reflexivity.
    + destruct (response e) as [[d' st']|]; cbn.
      * destruct d'; reflexivity.
      * destruct (request e); reflexivity.
    + reflexivity.
  - destruct (code_is (code e) "ECONNABORTED"); [reflexivity|].
    destruct (includes (message e) "Network Error"); reflexivity.
  - reflexivity.
Qed.

(** What the probe leaves when it does not succeed, at whatever time it
    is answered. *)
Lemma probe_failure_state : forall (net : Network) (c : Z),
  probe_ok (net Ping) = false ->
  exists msg,
    msg <> "" /\
    settle 0 net (mkWorld (ui mount) (inflight mount) None (pollDue mount) c (calls mount))
    = mkWorld (setError msg initialState) [] None poll_interval c [(0, Ping)].
Proof.
  intros net c H. unfold probe_ok in H. unfold settle, mount. cbn.
  destruct (net Ping) as [[d st]|[e|]]; cbn in *.
  - rewrite H. cbn. eexists; split; [|reflexivity]. discriminate.
  - destruct (code_is (code e) "ECONNABORTED"); cbn.
    + eexists; split; [|reflexivity]. discriminate.
    + destruct (includes (message e) "Network Error"); cbn;
        (eexists; split; [|reflexivity]); discriminate.
  - eexists; split; [|reflexivity]. discriminate.
Qed.

Lemma tick_quiet : forall w,
  debouncedSearch w = None -> clock w + 1 < pollDue w ->
  tick w = mkWorld (ui w) (inflight w) None (pollDue w) (clock w + 1) (calls w).
Proof.
  intros w Hd Hp. apply Z.leb_gt in Hp. unfold tick, debounce_due.
  cbn [ui inflight debouncedSearch pollDue clock calls]. rewrite Hp.
  cbn [ui inflight debouncedSearch pollDue clock calls]. rewrite Hd. reflexivity.
Qed.

Lemma elapse_quiet : forall n w,
  debouncedSearch w = None -> clock w + Z.of_nat n < pollDue w ->
  Nat.iter n tick w
  = mkWorld (ui w) (inflight w) None (pollDue w) (clock w + Z.of_nat n) (calls w).
Proof.
  induction n as [|n IH]; intros w Hd Hp.
  - destruct w as [u i d p c l]. cbn in *. subst d. now rewrite Z.add_0_r.
  - rewrite elapse_succ, (IH w Hd ltac:(lia)), tick_quiet; cbn; [|reflexivity|lia].
    f_equal. lia.
Qed.

(** X4. When the probe does not succeed, at whatever time before the first
    timer tick it is answered, and no user event follows, the alert shows a
    message and the spinner stays in place of the table: the probe is the
    only call made until the interval timer fires, and the timer issues
    the first list request 60 seconds after mount, whatever the probe
    returned. *)
Theorem failed_probe_keeps_spinner :
  forall (net : Network) (t n : nat),
    probe_ok (net Ping) = false ->
    Z.of_nat t + Z.of_nat n < 60000 ->
    showsSpinner (ui (play [Elapse t; Settle 0 net; Elapse n] mount)) = true /\
    showsTable (ui (play [Elapse t; Settle 0 net; Elapse n] mount)) = false /\
    showsAlert (ui (play [Elapse t; Settle 0 net; Elapse n] mount)) = true /\
    calls (play [Elapse t; Settle 0 net; Elapse n] mount) = [(0, Ping)] /\
    list_calls
      (calls (play [Elapse t; Settle 0 net; Elapse n;
                    Elapse (Z.to_nat (60000 - Z.of_nat t - Z.of_nat n))] mount))
    = [60000].
Proof.
  intros net t n H Hn.
  assert (E0 : Nat.iter t tick mount
               = mkWorld (ui mount) (inflight mount) None (pollDue mount)
                         (clock mount + Z.of_nat t) (calls mount)).
  { apply elapse_quiet; [reflexivity|].
    change (clock mount) with 0. change (pollDue mount) with 60000. lia. }
  destruct (probe_failure_state net (clock mount + Z.of_nat t) H) as [msg [Hmsg E1]].
  assert (E2 : Nat.iter n tick
                 (mkWorld (setError msg initialState) [] None poll_interval
                          (clock mount + Z.of_nat t) [(0, Ping)])
               = mkWorld (setError msg initialState) [] None poll_interval
                         (clock mount + Z.of_nat t + Z.of_nat n) [(0, Ping)]).
  { apply (elapse_quiet n
             (mkWorld (setError msg initialState) [] None poll_interval
                      (clock mount + Z.of_nat t) [(0, Ping)]));
      cbn [clock pollDue debouncedSearch]; [reflexivity|].
    change (clock mount) with 0. unfold poll_interval. lia. }
  assert (E : play [Elapse t; Settle 0 net; Elapse n] mount
              = mkWorld (setError msg initialState) [] None poll_interval
                        (clock mount + Z.of_nat t + Z.of_nat n) [(0, Ping)]).
  { cbn [play fold_left handle]. now rewrite E0, E1, E2. }
  change (play [Elapse t; Settle 0 net; Elapse n;
                Elapse (Z.to_nat (60000 - Z.of_nat t - Z.of_nat n))] mount)
    with (handle (play [Elapse t; Settle 0 net; Elapse n] mount)
                 (Elapse (Z.to_nat (60000 - Z.of_nat t - Z.of_nat n)))).
  rewrite E. cbn [ui calls handle].
  split; [reflexivity|]. split; [reflexivity|].
  split; [unfold showsAlert; cbn; destruct msg; [contradiction | reflexivity]|].
  split; [reflexivity|].
  destruct (elapse_poll_fires (Z.to_nat (60000 - Z.of_nat t - Z.of_nat n))
              (mkWorld (setError msg initialState) [] None poll_interval
                       (clock mount + Z.of_nat t + Z.of_nat n) [(0, Ping)]))
    as [_ Hc]; cbn [clock pollDue]; change (clock mount) with 0;
    unfold poll_interval; try lia.
  exact Hc.
Qed.

Lemma failed_probe_keeps_spinner_witness :
  probe_ok (answering Ping (Rejected timed_out) unreachable Ping) = false /\
  Z.of_nat 500 + Z.of_nat 1000 < 60000 /\
  showsSpinner
    (ui (play [Elapse 500; Settle 0 (answering Ping (Rejected timed_out) unreachable);
               Elapse 1000] mount)) = true /\
  error (ui (play [Elapse 500; Settle 0 (answering Ping (Rejected timed_out) unreachable)]
                  mount))
  = msg_probe_timeout.
Proof.
  split; [reflexivity|]. split; [lia|]. split; [|reflexivity].
  apply (failed_probe_keeps_spinner (answering Ping (Rejected timed_out) unreachable)
           500 1000); [reflexivity | lia].
Defined.

(** X5. A probe that fails with the code ECONNABORTED reports the timed-out
    message, also when the error text mentions a network error; it is the
    only call made. *)
Theorem probe_timeout_message :
  forall (net : Network) (s : UIState) (e : AxiosError),
    net Ping = Rejected (IsAxiosError e) ->
    code_is (code e) "ECONNABORTED" = true ->
    error (final (exec net initializeApp s)) = msg_probe_timeout /\
    timeout_class (error (final (exec net initializeApp s))) = true /\
    issued (exec net initializeApp s) = [Ping].
Proof.
  intros net s e H Hc. unfold initializeApp, checkServerConnectivity. cbn.
  rewrite H. cbn. rewrite Hc. repeat split.
Qed.

Lemma probe_timeout_message_witness :
  answering Ping (Rejected (IsAxiosError
      (mkAxiosError (Some "ECONNABORTED") "Network Error" None true))) unreachable Ping
  = Rejected (IsAxiosError (mkAxiosError (Some "ECONNABORTED") "Network Error" None true)) /\
  error (final (exec (answering Ping (Rejected (IsAxiosError
      (mkAxiosError (Some "ECONNABORTED") "Network Error" None true))) unreachable)
      initializeApp initialState)) = msg_probe_timeout.
Proof.
  split; [reflexivity|].
  apply (probe_timeout_message
           (answering Ping (Rejected (IsAxiosError
              (mkAxiosError (Some "ECONNABORTED") "Network Error" None true))) unreachable)
           initialState
           (mkAxiosError (Some "ECONNABORTED") "Network Error" None true));
    reflexivity.
Defined.

End Probe.

(* ===================================================================== *)
(** ** Failures are shown and contained *)
(* ===================================================================== *)

Section Failures.
Local Open Scope list_scope.

Lemma or_default_not_empty : forall (a : option string) (dflt : string),
  dflt <> "" -> or_default a dflt <> "".
Proof.
  intros [[|c s]|] dflt H; simpl; [exact H | discriminate | exact H].
Qed.

Lemma showsAlert_setError : forall (msg : string) (s : UIState),
  msg <> "" -> showsAlert (setError msg s) = true.
Proof. intros [|c msg] s H; [contradiction | reflexivity]. Qed.

(** X6. A query shorter than two characters is never sent: the search empties
    the candidate list at once, issues no request and leaves nothing in
    flight, whatever the network would answer. *)
Theorem short_query_no_request :
  forall (net : Network) (s : UIState) (w : World) (query : string),
    (String.length query < 2)%nat ->
    exec net (searchCryptocurrencies query) s = (setSearchResults [] s, [], tt) /\
    calls (spawn (searchCryptocurrencies query) w) = calls w /\
    inflight (spawn (searchCryptocurrencies query) w) = inflight w /\
    searchResults (ui (spawn (searchCryptocurrencies query) w)) = [].
Proof.
  intros net s w query H. apply Nat.ltb_lt in H.
  unfold spawn, searchCryptocurrencies. rewrite H. repeat split.
Qed.

Lemma short_query_no_request_witness :
  (String.length "d" < 2)%nat /\
  exec (search_ok [doge] unreachable) (searchCryptocurrencies "d")
       (setSearchResults [btc] initialState)
  = (setSearchResults [] (setSearchResults [btc] initialState), [], tt).
Proof.
  split; [simpl; lia|].
  apply (short_query_no_request (search_ok [doge] unreachable)
           (setSearchResults [btc] initialState) mount "d").
  simpl; lia.
Defined.

(** X7. A search that fails empties the candidate list and shows a message;
    the tracked list, the search text, the dialog and the loading flag are
    left alone.  When no response was received, a timeout included, the
    message is "Search failed: Unknown error". *)
Theorem search_failure_clears_candidates :
  forall (net : Network) (s : UIState) (query : string) (err : Thrown),
    (2 <= String.length query)%nat ->
    net (Search query) = Rejected err ->
    (exists msg, msg <> "" /\
       final (exec net (searchCryptocurrencies query) s)
       = setSearchResults [] (setError msg s)) /\
    showsAlert (final (exec net (searchCryptocurrencies query) s)) = true /\
    issued (exec net (searchCryptocurrencies query) s) = [Search query] /\
    (forall e, err = IsAxiosError e -> response e = None ->
       error (final (exec net (searchCryptocurrencies query) s))
       = "Search failed: Unknown error").
Proof.
  intros net s query err Hlen H. apply Nat.ltb_ge in Hlen.
  unfold searchCryptocurrencies. rewrite Hlen. cbn. rewrite H.
  destruct err as [e|]; cbn.
  - split; [|split; [reflexivity|split; [reflexivity|]]].
    + eexists; split; [|reflexivity]. discriminate.
    + intros e' E Hr. inversion E; subst e'.
      unfold response_error. now rewrite Hr.
  - split; [|split; [reflexivity|split; [reflexivity|]]].
    + eexists; split; [|reflexivity]. discriminate.
    + intros e' E. discriminate.
Qed.

Lemma search_failure_clears_candidates_witness :
  (2 <= String.length "do")%nat /\
  answering (Search "") (Rejected timed_out) unreachable (Search "do") = Rejected timed_out /\
  error (final (exec (answering (Search "") (Rejected timed_out) unreachable)
                     (searchCryptocurrencies "do")
                     (setSearchResults [doge] initialState)))
  = "Search failed: Unknown error".
Proof.
  split; [simpl; lia|]. split; [reflexivity|].
  destruct (search_failure_clears_candidates
              (answering (Search "") (Rejected timed_out) unreachable)
              (setSearchResults [doge] initialState) "do" timed_out
              ltac:(simpl; lia) eq_refl) as [_ [_ [_ H]]].
  apply (H (mkAxiosError (Some "ECONNABORTED") "timeout exceeded" None true));
    reflexivity.
Defined.

(** X8. A failing add issues no list request and changes nothing but the
    error message, which is never empty: for an axios error it is the
    backend's error text when the response carries a non-empty one and
    "Failed to add cryptocurrency" otherwise; for any other rejection it is
    "An unexpected error occurred". *)
Theorem add_failure_no_refetch :
  forall (net : Network) (s : UIState) (symbol : string) (err : Thrown),
    net (Add symbol) = Rejected err ->
    issued (exec net (handleAddCrypto symbol) s) = [Add symbol] /\
    error (final (exec net (handleAddCrypto symbol) s))
    = match err with
      | IsAxiosError e =>
          match response_error e with
          | Some (String c text) => String c text
          | Some EmptyString | None => "Failed to add cryptocurrency"
          end
      | OtherError => "An unexpected error occurred"
      end /\
    final (exec net (handleAddCrypto symbol) s)
    = setError (error (final (exec net (handleAddCrypto symbol) s))) s /\
    error (final (exec net (handleAddCrypto symbol) s)) <> "" /\
    showsAlert (final (exec net (handleAddCrypto symbol) s)) = true.
Proof.
  intros net s symbol err H. unfold handleAddCrypto. cbn [exec]. rewrite H.
  destruct err as [e|]; cbn.
  - split; [reflexivity|].
    destruct (response_error e) as [[|c text]|]; cbn;
      repeat split; discriminate.
  - repeat split. discriminate.
Qed.

Lemma add_failure_no_refetch_witness :
  add_fails not_found unreachable (Add "DOGE") = Rejected not_found /\
  issued (exec (add_fails not_found unreachable) (handleAddCrypto "DOGE") initialState)
  = [Add "DOGE"] /\
  error (final (exec (add_fails not_found unreachable) (handleAddCrypto "DOGE")
                     initialState))
  = "Coin not found" /\
  error (final (exec (add_fails (unavailable (ErrOther (Some "") "{error:}")) unreachable)
                     (handleAddCrypto "DOGE") initialState))
  = "Failed to add cryptocurrency".
Proof.
  split; [reflexivity|].
  destruct (add_failure_no_refetch (add_fails not_found unreachable)
              initialState "DOGE" not_found eq_refl) as [Hi [Hm _]].
  split; [exact Hi|]. split; [exact Hm|].
  destruct (add_failure_no_refetch
              (add_fails (unavailable (ErrOther (Some "") "{error:}")) unreachable)
              initialState "DOGE" (unavailable (ErrOther (Some "") "{error:}")) eq_refl)
    as [_ [Hm' _]].
  exact Hm'.
Defined.

(** X9. When a list fetch started by start-up or by the interval timer
    does not succeed, with or without fallback data, the alert shows a
    message and the spinner gives way to the table, in whatever state the
    response arrives.  (The re-fetch inside a successful add is a different
    continuation, which clears the message again.) *)
Theorem fetch_failure_is_shown :
  forall (net : Network) (s : UIState) (w : World) (i : nat),
    fetch_failed (net ListCoins) = true ->
    nth_error (inflight w) i = Some (Suspended ListCoins fetch_settle) ->
    showsAlert (final (exec net fetchCryptocurrencies s)) = true /\
    showsSpinner (final (exec net fetchCryptocurrencies s)) = false /\
    showsTable (final (exec net fetchCryptocurrencies s)) = true /\
    issued (exec net fetchCryptocurrencies s) = [ListCoins] /\
    showsAlert (ui (settle i net w)) = true /\
    showsSpinner (ui (settle i net w)) = false /\
    showsTable (ui (settle i net w)) = true /\
    calls (settle i net w) = calls w.
Proof.
  intros net s w i H Hin. rewrite exec_fetch.
  rewrite (settle_at w i ListCoins fetch_settle net Hin). unfold spawn.
  destruct (net ListCoins) as [[d st]|[e|]]; cbn in *.
  - destruct d; [discriminate|]. repeat split.
  - destruct (response e) as [[d st]|]; cbn.
    + destruct d; repeat split.
    + destruct (request e); repeat split.
  - repeat split.
Qed.

Lemma fetch_failure_is_shown_witness :
  nth_error (inflight (play [Settle 0 unreachable; Elapse (Z.to_nat poll_interval)] mount)) 0
  = Some (Suspended ListCoins fetch_settle) /\
  fetch_failed (list_fails (unavailable (ErrArray [])) unreachable ListCoins) = true /\
  nth_error (inflight (play [Settle 0 ping_ok; ClickAddCoin; Typing "bt" 1] mount)) 0
  = Some (Suspended ListCoins fetch_settle) /\
  showsAlert
    (ui (settle 0 (list_fails (unavailable (ErrArray [])) unreachable)
                (play [Settle 0 ping_ok; ClickAddCoin; Typing "bt" 1] mount))) = true /\
  showsSpinner
    (ui (settle 0 (list_fails (unavailable (ErrArray [])) unreachable)
                (play [Settle 0 ping_ok; ClickAddCoin; Typing "bt" 1] mount))) = false.
Proof.
  split; [vm_compute; reflexivity|].
  split; [reflexivity|]. split; [reflexivity|].
  destruct (fetch_failure_is_shown (list_fails (unavailable (ErrArray [])) unreachable)
              initialState
              (play [Settle 0 ping_ok; ClickAddCoin; Typing "bt" 1] mount) 0
              eq_refl eq_refl) as [_ [_ [_ [_ [Ha [Hs _]]]]]].
  split; [exact Ha | exact Hs].
Defined.

(** An error response with an array body replaces the table by that
    array exactly as received, in its order and even when it is empty, and
    shows the fallback notice. *)
Lemma fallback_replaces_list :
  forall (net : Network) (s : UIState) (e : AxiosError) (st : Z)
         (items : list Cryptocurrency.t),
    net ListCoins = Rejected (IsAxiosError e) ->
    response e = Some (mkResponse (ErrArray items) st) ->
    final (exec net fetchCryptocurrencies s)
    = mkUI items (isSearchDialogOpen s) (searchTerm s) (searchResults s)
           msg_fallback false (anchorEl s).
Proof.
  intros net s e st items H Hr. rewrite exec_fetch, H. cbn. rewrite Hr. reflexivity.
Qed.

Lemma fallback_replaces_list_witness :
  list_fails (unavailable (ErrArray [])) unreachable ListCoins
  = Rejected (unavailable (ErrArray [])) /\
  cryptocurrencies
    (final (exec (list_fails (unavailable (ErrArray [])) unreachable)
                 fetchCryptocurrencies (setCryptocurrencies [BTC; DOGE] initialState)))
  = [].
Proof.
  split; [reflexivity|].
  rewrite (fallback_replaces_list (list_fails (unavailable (ErrArray [])) unreachable)
             (setCryptocurrencies [BTC; DOGE] initialState)
             (mkAxiosError (Some "ERR_BAD_RESPONSE") "Request failed with status code 503"
                           (Some (mkResponse (ErrArray []) 503)) true)
             503 [] eq_refl eq_refl).
  reflexivity.
Defined.

End Failures.

(* ===================================================================== *)
(** ** More on sorting and filtering *)
(* ===================================================================== *)

Section SortAndFilter.
Local Open Scope list_scope.

(** X10. A successful response that is already in default-first order is
    shown exactly as received, and sorting a sorted list changes nothing;
    the table always has as many rows as the response has coins. *)
Theorem ordered_response_shown_unchanged :
  forall (net : Network) (s : UIState) (items : list Cryptocurrency.t) (st : Z),
    net ListCoins = Resolved (mkResponse (PArray items) st) ->
    (defaults_precede items ->
       cryptocurrencies (final (exec net fetchCryptocurrencies s)) = items) /\
    sort by_default (cryptocurrencies (final (exec net fetchCryptocurrencies s)))
      = cryptocurrencies (final (exec net fetchCryptocurrencies s)) /\
    length (cryptocurrencies (final (exec net fetchCryptocurrencies s))) = length items.
Proof.
  intros net s items st H. rewrite exec_fetch, H. cbn.
  split; [|split].
  - intros Hord. symmetry. now apply stable_order_unique.
  - symmetry. apply stable_order_unique; try reflexivity.
    rewrite sort_by_default. apply partition_defaults_precede.
  - rewrite sort_by_default. symmetry.
    apply Permutation_length, partition_permutation.
Qed.

Lemma ordered_response_shown_unchanged_witness :
  list_ok [BTC; ETH; DOGE] unreachable ListCoins
  = Resolved (mkResponse (PArray [BTC; ETH; DOGE]) 200) /\
  defaults_precede [BTC; ETH; DOGE] /\
  cryptocurrencies (final (exec (list_ok [BTC; ETH; DOGE] unreachable)
                                fetchCryptocurrencies initialState))
  = [BTC; ETH; DOGE].
Proof.
  split; [reflexivity|].
  assert (O : defaults_precede [BTC; ETH; DOGE]).
  { change [BTC; ETH; DOGE] with (filter is_default [BTC; ETH; DOGE]
                                  ++ filter non_default [BTC; ETH; DOGE]).
    apply partition_defaults_precede. }
  split; [exact O|].
  destruct (ordered_response_shown_unchanged (list_ok [BTC; ETH; DOGE] unreachable)
              initialState [BTC; ETH; DOGE] 200 eq_refl) as [H _].
  exact (H O).
Defined.

Lemma exec_search_ok :
  forall (net : Network) (s : UIState) (query : string)
         (items : list SearchResult.t) (st : Z),
    (2 <= String.length query)%nat ->
    net (Search query) = Resolved (mkResponse (PArray items) st) ->
    exec net (searchCryptocurrencies query) s
    = (setSearchResults (firstn 10 (filter (matches_query query) items)) s,
       [Search query], tt).
Proof.
  intros net s query items st Hlen H. unfold searchCryptocurrencies.
  apply Nat.ltb_ge in Hlen. rewrite Hlen. cbn. rewrite H. reflexivity.
Qed.

Lemma lower_ascii_idempotent : forall c, lower_ascii (lower_ascii c) = lower_ascii c.
Proof. intros [[] [] [] [] [] [] [] []]; reflexivity. Qed.

Lemma toLowerCase_idempotent : forall s, toLowerCase (toLowerCase s) = toLowerCase s.
Proof.
  induction s as [|c s IH]; simpl; [reflexivity|].
  now rewrite lower_ascii_idempotent, IH.
Qed.

Lemma toLowerCase_length : forall s, String.length (toLowerCase s) = String.length s.
Proof. induction s as [|c s IH]; simpl; [|rewrite IH]; reflexivity. Qed.

(** X11. The case of the typed query does not matter: from the same response,
    a query and its lower-case form store the same candidates. *)
Theorem search_ignores_query_case :
  forall (net : Network) (s : UIState) (query : string)
         (items : list SearchResult.t) (st st' : Z),
    (2 <= String.length query)%nat ->
    net (Search query) = Resolved (mkResponse (PArray items) st) ->
    net (Search (toLowerCase query)) = Resolved (mkResponse (PArray items) st') ->
    searchResults (final (exec net (searchCryptocurrencies (toLowerCase query)) s))
    = searchResults (final (exec net (searchCryptocurrencies query) s)).
Proof.
  intros net s query items st st' Hlen H H'.
  rewrite (exec_search_ok net s query items st Hlen H).
  rewrite (exec_search_ok net s (toLowerCase query) items st')
    by (rewrite ?toLowerCase_length; assumption).
  cbn [final fst searchResults setSearchResults].
  f_equal. apply filter_ext. intros r.
  unfold matches_query. now rewrite toLowerCase_idempotent.
Qed.

Lemma search_ignores_query_case_witness :
  (2 <= String.length "BT")%nat /\
  searchResults (final (exec (search_ok [btc; eth] unreachable)
                             (searchCryptocurrencies (toLowerCase "BT")) initialState))
  = searchResults (final (exec (search_ok [btc; eth] unreachable)
                               (searchCryptocurrencies "BT") initialState)) /\
  searchResults (final (exec (search_ok [btc; eth] unreachable)
                             (searchCryptocurrencies "BT") initialState)) = [btc] /\
  toLowerCase (String (ascii_of_nat 201) "C") = ec_query /\
  searchResults (final (exec (search_ok [btc; ecole] unreachable)
                             (searchCryptocurrencies (String (ascii_of_nat 201) "C"))
                             initialState)) = [ecole].
Proof.
  split; [simpl; lia|]. split; [|split; [reflexivity|split; reflexivity]].
  apply (search_ignores_query_case (search_ok [btc; eth] unreachable) initialState
           "BT" [btc; eth] 200 200); [simpl; lia | reflexivity | reflexivity].
Defined.

(** X12. When the response has at most ten matching candidates, none of them
    is dropped: all are stored, in response order. *)
Theorem search_keeps_all_when_few :
  forall (net : Network) (s : UIState) (query : string)
         (items : list SearchResult.t) (st : Z),
    (2 <= String.length query)%nat ->
    net (Search query) = Resolved (mkResponse (PArray items) st) ->
    (length (filter (matches_query query) items) <= 10)%nat ->
    forall result,
      In result items ->
      contains_ignoring_case (SearchResult.symbol result) query \/
      contains_ignoring_case (SearchResult.name result) query ->
      In result (searchResults (final (exec net (searchCryptocurrencies query) s))).
Proof.
  intros net s query items st Hlen H Hfew result Hin Hm.
  rewrite (exec_search_ok net s query items st Hlen H).
  cbn [final fst searchResults setSearchResults].
  rewrite firstn_all2 by exact Hfew.
  apply filter_In. split; [exact Hin | now apply matches_query_spec].
Qed.

Lemma search_keeps_all_when_few_witness :
  (2 <= String.length "dog")%nat /\
  (length (filter (matches_query "dog") [btc; doge]) <= 10)%nat /\
  In doge (searchResults (final (exec (search_ok [btc; doge] unreachable)
                                      (searchCryptocurrencies "dog") initialState))).
Proof.
  split; [simpl; lia|]. split; [simpl; lia|].
  apply (search_keeps_all_when_few (search_ok [btc; doge] unreachable) initialState
           "dog" [btc; doge] 200).
  - simpl; lia.
  - reflexivity.
  - simpl; lia.
  - right; now left.
  - left. exists "", "DOG", "E". split; reflexivity.
Defined.

End SortAndFilter.

(* ===================================================================== *)
(** ** Selections and overlapping requests *)
(* ===================================================================== *)

Section Overlap.
Local Open Scope list_scope.



Lemma spawn_search_settled : forall (w : World) (q : string) (net : Network)
                                    (items : list SearchResult.t) (st : Z),
  net (Search q) = Resolved (mkResponse (PArray items) st) ->
  spawn (search_settle q (net (Search q))) w
  = mkWorld (setSearchResults (firstn 10 (filter (matches_query q) items)) (ui w))
            (inflight w) (debouncedSearch w) (pollDue w) (clock w) (calls w).
Proof. intros w q net items st H. rewrite H. reflexivity. Qed.

(** X14. Responses are applied in the order in which they settle, not in the
    order in which the searches were issued: when the search issued first
    settles last, its candidates replace those of the later query. *)
Theorem last_settled_search_wins :
  forall (w : World) (q1 q2 : string) (rest : list Pending)
         (net1 net2 : Network) (items1 items2 : list SearchResult.t) (st1 st2 : Z),
    inflight w = Suspended (Search q1) (search_settle q1)
                 :: Suspended (Search q2) (search_settle q2) :: rest ->
    net1 (Search q1) = Resolved (mkResponse (PArray items1) st1) ->
    net2 (Search q2) = Resolved (mkResponse (PArray items2) st2) ->
    searchResults (ui (play [Settle 1 net2] w))
    = firstn 10 (filter (matches_query q2) items2) /\
    searchResults (ui (play [Settle 1 net2; Settle 0 net1] w))
    = firstn 10 (filter (matches_query q1) items1) /\
    inflight (play [Settle 1 net2; Settle 0 net1] w) = rest.
Proof.
  intros w q1 q2 rest net1 net2 items1 items2 st1 st2 Hin H1 H2.
  cbn [play fold_left handle].
  assert (E1 : settle 1 net2 w
               = mkWorld (setSearchResults (firstn 10 (filter (matches_query q2) items2))
                                           (ui w))
                         (Suspended (Search q1) (search_settle q1) :: rest)
                         (debouncedSearch w) (pollDue w) (clock w) (calls w)).
  { rewrite (settle_at w 1 (Search q2) (search_settle q2) net2)
      by (rewrite Hin; reflexivity).
    rewrite (spawn_search_settled _ q2 net2 items2 st2 H2).
    cbn [ui inflight debouncedSearch pollDue clock calls]. rewrite Hin. reflexivity. }
  rewrite E1.
  rewrite (settle_at _ 0 (Search q1) (search_settle q1) net1) by reflexivity.
  rewrite (spawn_search_settled _ q1 net1 items1 st1 H1).
  repeat split.
Qed.

Lemma last_settled_search_wins_witness :
  inflight (play (Settle 0 unreachable :: two_searches_run) mount)
  = [Suspended (Search "do") (search_settle "do");
     Suspended (Search "dog") (search_settle "dog")] /\
  searchResults
    (ui (play [Settle 1 (search_ok [doge] unreachable);
               Settle 0 (search_ok [doge; SearchResult.mk "DOT" "Polkadot"] unreachable)]
              (play (Settle 0 unreachable :: two_searches_run) mount)))
  = [doge; SearchResult.mk "DOT" "Polkadot"].
Proof.
  split; [reflexivity|].
  destruct (last_settled_search_wins
              (play (Settle 0 unreachable :: two_searches_run) mount) "do" "dog" []
              (search_ok [doge; SearchResult.mk "DOT" "Polkadot"] unreachable)
              (search_ok [doge] unreachable)
              [doge; SearchResult.mk "DOT" "Polkadot"] [doge] 200 200
              eq_refl eq_refl eq_refl) as [_ [H _]].
  rewrite H. reflexivity.
Defined.

End Overlap.

(* ===================================================================== *)
(** ** Invariants of the event loop *)
(* ===================================================================== *)

Section Steady.
Local Open Scope list_scope.

Variable P : UIState -> Prop.
Variable allowed : forall e : Endpoint, Settled (body e) -> Prop.

Hypothesis P_initial : P initialState.
Hypothesis P_dialog : forall v s, P s -> P (setIsSearchDialogOpen v s).
Hypothesis P_term : forall v s, P s -> P (setSearchTerm v s).
Hypothesis P_anchor : forall v s, P s -> P (setAnchorEl v s).
Hypothesis P_error : forall v s, P s -> P (setError v s).
Hypothesis P_loading : forall v s, P s -> P (setIsLoading v s).
Hypothesis P_no_results : forall s, P s -> P (setSearchResults [] s).
Hypothesis fetch_settle_keeps :
  forall o, allowed ListCoins o -> keeps P allowed (fetch_settle o).
Hypothesis search_settle_keeps :
  forall q o, allowed (Search q) o -> keeps P allowed (search_settle q o).

Lemma keeps_bind : forall (A B : Type) (p : Async A) (f : A -> Async B),
  keeps P allowed p -> (forall a, keeps P allowed (f a)) -> keeps P allowed (bind p f).
Proof.
  intros A B p f Hp Hf. induction Hp as [a|g k Hg Hk IH|e k Hk IH]; cbn.
  - apply Hf.
  - now constructor.
  - constructor. intros o Ho. now apply IH.
Qed.

Lemma keeps_call : forall f : UIState -> UIState,
  (forall s, P s -> P (f s)) -> keeps P allowed (call f).
Proof. intros f H. unfold call. constructor; [exact H | constructor]. Qed.

Lemma fetch_keeps : keeps P allowed fetchCryptocurrencies.
Proof.
  unfold fetchCryptocurrencies.
  apply keeps_bind; [apply keeps_call, P_loading|]. intros _.
  apply keeps_bind; [apply keeps_call, P_error|]. intros _.
  change (keeps P allowed (Await ListCoins fetch_settle)).
  constructor. intros o Ho. now apply fetch_settle_keeps.
Qed.

Lemma search_keeps : forall q, keeps P allowed (searchCryptocurrencies q).
Proof.
  intros q. unfold searchCryptocurrencies.
  destruct (String.length q <? 2)%nat; [apply keeps_call, P_no_results|].
  change (keeps P allowed (Await (Search q) (search_settle q))).
  constructor. intros o Ho. now apply search_settle_keeps.
Qed.

Lemma add_keeps : forall symbol, keeps P allowed (handleAddCrypto symbol).
Proof.
  intros symbol. unfold handleAddCrypto. constructor. intros o _.
  destruct o as [r|err]; cbn [add_settle].
  - apply keeps_bind; [apply fetch_keeps|]. intros _.
    apply keeps_bind; [apply keeps_call, P_dialog|]. intros _.
    apply keeps_bind; [apply keeps_call, P_no_results|]. intros _.
    apply keeps_bind; [apply keeps_call, P_term|]. intros _.
    apply keeps_call, P_error.
  - destruct err as [e|]; apply keeps_call, P_error.
Qed.

Lemma initialize_keeps : keeps P allowed initializeApp.
Proof.
  unfold initializeApp. apply keeps_bind.
  - unfold checkServerConnectivity.
    change (keeps P allowed (Await Ping (fun o => bind (Ret o) (fun o =>
              match o with
              | Resolved pingResponse =>
                  if code_is (data pingResponse) "ok" then Ret true
                  else (call (setError "Unexpected server response") ;; Ret false)
              | Rejected (IsAxiosError axiosError) =>
                  (if code_is (code axiosError) "ECONNABORTED" then
                     call (setError msg_probe_timeout)
                   else if includes (message axiosError) "Network Error" then
                     call (setError msg_probe_network)
                   else
                     call (setError ("Unable to connect to the server: "
                                     ++ message axiosError)%string)) ;;
                  Ret false
              | Rejected OtherError =>
                  call (setError
                    "An unexpected error occurred during server connectivity check.") ;;
                  Ret false
              end)))).
    constructor. intros o _. cbn [bind].
    destruct o as [r|[e|]].
    + destruct (code_is (data r) "ok"); [constructor|].
      apply keeps_bind; [apply keeps_call, P_error | intros _; constructor].
    + apply keeps_bind; [|intros _; constructor].
      destruct (code_is (code e) "ECONNABORTED"); [apply keeps_call, P_error|].
      destruct (includes (message e) "Network Error"); apply keeps_call, P_error.
    + apply keeps_bind; [apply keeps_call, P_error | intros _; constructor].
  - intros [|]; [apply fetch_keeps | constructor].
Qed.

Lemma advance_keeps : forall (p : Async unit) (s : UIState),
  keeps P allowed p -> P s ->
  P (fst (advance p s)) /\
  match snd (advance p s) with
  | Finished _ => True
  | Waiting e k => forall o, allowed e o -> keeps P allowed (k o)
  end.
Proof.
  intros p s Hp. revert s. induction Hp as [a|g k Hg Hk IH|e k Hk IH]; intros s Hs; cbn.
  - split; [exact Hs | exact I].
  - apply IH, Hg, Hs.
  - split; [exact Hs | exact Hk].
Qed.

Lemma spawn_steady : forall (p : Async unit) (w : World),
  keeps P allowed p -> steady P allowed w -> steady P allowed (spawn p w).
Proof.
  intros p w Hp [Hs Hf]. destruct (advance_keeps p (ui w) Hp Hs) as [H1 H2].
  unfold spawn, steady. destruct (advance p (ui w)) as [s [a|e k]]; cbn in *.
  - split; assumption.
  - split; [assumption|]. apply Forall_app. split; [assumption|].
    constructor; [exact H2 | constructor].
Qed.

Lemma remove_nth_Forall : forall (A : Type) (Q : A -> Prop) (i : nat) (l : list A),
  Forall Q l -> Forall Q (remove_nth i l).
Proof.
  intros A Q i l H. revert i. induction H as [|x l Hx Hl IH]; intros [|i]; cbn;
    try constructor; auto.
Qed.

Lemma settle_steady : forall (i : nat) (net : Network) (w : World),
  (forall e, allowed e (net e)) -> steady P allowed w ->
  steady P allowed (settle i net w).
Proof.
  intros i net w Hnet [Hs Hf]. unfold settle.
  destruct (nth_error (inflight w) i) as [[e k]|] eqn:E; [|split; assumption].
  apply spawn_steady.
  - apply nth_error_In in E. rewrite Forall_forall in Hf.
    apply (Hf _ E). apply Hnet.
  - split; cbn; [assumption | now apply remove_nth_Forall].
Qed.

Lemma render_steady : forall (f : UIState -> UIState) (w : World),
  (forall s, P s -> P (f s)) -> steady P allowed w -> steady P allowed (render f w).
Proof. intros f w Hf [Hs Hp]. split; cbn; [now apply Hf | assumption]. Qed.

Lemma tick_steady : forall w, steady P allowed w -> steady P allowed (tick w).
Proof.
  intros w H. unfold tick.
  cbn [ui inflight debouncedSearch pollDue clock calls].
  set (w2 := if pollDue w <=? clock w + 1 then _ else _).
  assert (H2 : steady P allowed w2).
  { unfold w2. destruct (pollDue w <=? clock w + 1); [|exact H].
    apply spawn_steady; [apply fetch_keeps | exact H]. }
  destruct (debounce_due (clock w2) (debouncedSearch w2)); [|exact H2].
  apply spawn_steady; [apply search_keeps | exact H2].
Qed.

Lemma handle_steady : forall (ev : Event) (w : World),
  delivers allowed ev -> steady P allowed w -> steady P allowed (handle w ev).
Proof.
  intros ev w Hev H. destruct ev as [ms|i net| | |text target|i|i|]; cbn [handle].
  - clear Hev. induction ms as [|ms IH]; [exact H|]. cbn. now apply tick_steady.
  - now apply settle_steady.
  - apply render_steady; [apply P_dialog | exact H].
  - destruct (isSearchDialogOpen (ui w)); [|exact H].
    apply render_steady; [apply P_dialog | exact H].
  - destruct (isSearchDialogOpen (ui w)); [|exact H].
    unfold handleSearchChange.
    destruct H as [Hs Hf]. split; cbn; [now apply P_anchor, P_term | assumption].
  - destruct (isSearchDialogOpen (ui w)); [|exact H].
    destruct (nth_error (searchResults (ui w)) i); [|exact H].
    apply spawn_steady; [apply add_keeps | exact H].
  - destruct (popup_shown (ui w)); [|exact H].
    destruct (nth_error (searchResults (ui w)) i); [|exact H].
    unfold handleSelectSearchResult.
    apply render_steady; [apply P_anchor|].
    apply render_steady; [apply P_no_results|].
    apply render_steady; [apply P_term|].
    apply spawn_steady; [apply add_keeps | exact H].
  - destruct (popup_shown (ui w)); [|exact H].
    apply render_steady; [apply P_anchor | exact H].
Qed.

Lemma play_steady : forall (evs : list Event),
  Forall (delivers allowed) evs -> P (ui (play evs mount)).
Proof.
  intros evs Hevs.
  assert (G : forall evs w, Forall (delivers allowed) evs ->
                            steady P allowed w -> steady P allowed (play evs w)).
  { clear evs Hevs. induction evs as [|ev evs IH]; intros w He Hw; [exact Hw|].
    inversion He; subst. cbn. apply IH; [assumption|]. now apply handle_steady. }
  apply (G evs mount Hevs).
  apply spawn_steady; [apply initialize_keeps|].
  split; cbn; [exact P_initial | constructor].
Qed.

End Steady.

Section ReachableStates.
Local Open Scope list_scope.

(** X15. In every reachable state at most ten candidates are stored: no
    interleaving of responses, late or failed ones included, can put more
    of them in the dialog list or the popup. *)
Theorem candidates_never_exceed_ten :
  forall w : World, reachable w -> (length (searchResults (ui w)) <= 10)%nat.
Proof.
  intros w [evs <-].
  apply (play_steady within_limit any_outcome); unfold within_limit; try (intros; assumption).
  - cbn. lia.
  - intros s _. cbn. lia.
  - intros o _. destruct o as [[d st]|[e|]]; cbn.
    + destruct d; repeat (constructor; try (intros; assumption)).
    + destruct (response e) as [[d st]|]; cbn.
      * destruct d; repeat (constructor; try (intros; assumption)).
      * destruct (request e); repeat (constructor; try (intros; assumption)).
    + repeat (constructor; try (intros; assumption)).
  - intros q o _. destruct o as [[d st]|[e|]]; cbn [search_settle data search_catch].
    + destruct d.
      * apply keeps_call. intros s _. cbn [searchResults setSearchResults].
        unfold slice0. apply firstn_le_length.
      * cbn. repeat (constructor; try (intros; assumption)).
    + cbn. repeat (constructor; try (intros; assumption)).
    + cbn. repeat (constructor; try (intros; assumption)).
  - apply Forall_forall. intros ev _. destruct ev; cbn; auto. intros e. exact I.
Qed.

Lemma candidates_never_exceed_ten_witness :
  reachable (play popup_ready_run mount) /\
  (length (searchResults (ui (play popup_ready_run mount))) <= 10)%nat.
Proof.
  assert (R : reachable (play popup_ready_run mount))
    by (exists popup_ready_run; reflexivity).
  split; [exact R|]. exact (candidates_never_exceed_ten _ R).
Defined.

(** X16. As long as no error response with an array body is received, the
    table is in default-first order in every state the component
    reaches, under any interleaving of events; the fallback data is the
    only way to get another order on screen. *)
Theorem table_ordered_without_fallback :
  forall evs : list Event,
    Forall (delivers no_fallback) evs ->
    defaults_precede (cryptocurrencies (ui (play evs mount))).
Proof.
  intros evs Hevs.
  apply (play_steady table_ordered no_fallback); unfold table_ordered;
    try (intros; assumption).
  - cbn. intros i j a b Ha. destruct i; discriminate.
  - intros o Ho. cbn in Ho. destruct o as [[d st]|[e|]]; cbn in *.
    + destruct d.
      * constructor; [|repeat (constructor; try (intros; assumption))].
        intros s _. cbn [cryptocurrencies setCryptocurrencies].
        rewrite sort_by_default. apply partition_defaults_precede.
      * repeat (constructor; try (intros; assumption)).
    + destruct (response e) as [[d st]|]; cbn in *.
      * destruct d; [discriminate|]. repeat (constructor; try (intros; assumption)).
      * destruct (request e); repeat (constructor; try (intros; assumption)).
    + repeat (constructor; try (intros; assumption)).
  - intros q o _. destruct o as [[d st]|[e|]]; cbn.
    + destruct d; repeat (constructor; try (intros; assumption)).
    + repeat (constructor; try (intros; assumption)).
    + repeat (constructor; try (intros; assumption)).
Qed.

Lemma table_ordered_without_fallback_witness :
  Forall (delivers no_fallback)
         [Settle 0 ping_ok; Settle 0 (list_ok [DOGE; BTC] unreachable)] /\
  cryptocurrencies
    (ui (play [Settle 0 ping_ok; Settle 0 (list_ok [DOGE; BTC] unreachable)] mount))
  = [BTC; DOGE] /\
  defaults_precede
    (cryptocurrencies
       (ui (play [Settle 0 ping_ok; Settle 0 (list_ok [DOGE; BTC] unreachable)] mount))).
Proof.
  assert (D : Forall (delivers no_fallback)
                [Settle 0 ping_ok; Settle 0 (list_ok [DOGE; BTC] unreachable)]).
  { repeat constructor; intros e; destruct e; cbn; auto. }
  split; [exact D|]. split; [reflexivity|].
  exact (table_ordered_without_fallback _ D).
Defined.

End ReachableStates.

(* ===================================================================== *)
(** ** Start-up and re-fetch, end to end *)
(* ===================================================================== *)

Section EndToEnd.
Local Open Scope list_scope.

(** X17. When the probe answers "ok" and the list request succeeds, start-up
    ends with the table in place of the spinner, no alert, and the response
    in default-first order; the probe and the list request are the only
    calls made. *)
Theorem startup_shows_sorted_table :
  forall (net : Network) (s : UIState) (st st' : Z) (items : list Cryptocurrency.t),
    net Ping = Resolved (mkResponse (Some "ok") st) ->
    net ListCoins = Resolved (mkResponse (PArray items) st') ->
    exec net initializeApp s
    = (mkUI (filter is_default items ++ filter non_default items)
            (isSearchDialogOpen s) (searchTerm s) (searchResults s) "" false (anchorEl s),
       [Ping; ListCoins], tt) /\
    showsTable (final (exec net initializeApp s)) = true /\
    showsAlert (final (exec net initializeApp s)) = false.
Proof.
  intros net s st st' items Hp Hl.
  assert (E : exec net initializeApp s
              = (mkUI (sort by_default items)
                      (isSearchDialogOpen s) (searchTerm s) (searchResults s) "" false
                      (anchorEl s),
                 [Ping; ListCoins], tt)).
  { unfold initializeApp, checkServerConnectivity. cbn. rewrite Hp. cbn.
    rewrite Hl. reflexivity. }
  rewrite E, sort_by_default. repeat split.
Qed.

Lemma startup_shows_sorted_table_witness :
  list_ok [DOGE; BTC] ping_ok Ping = Resolved (mkResponse (Some "ok") 200) /\
  list_ok [DOGE; BTC] ping_ok ListCoins = Resolved (mkResponse (PArray [DOGE; BTC]) 200) /\
  cryptocurrencies (final (exec (list_ok [DOGE; BTC] ping_ok) initializeApp initialState))
  = [BTC; DOGE].
Proof.
  split; [reflexivity|]. split; [reflexivity|].
  destruct (startup_shows_sorted_table (list_ok [DOGE; BTC] ping_ok) initialState
              200 200 [DOGE; BTC] eq_refl eq_refl) as [E _].
  rewrite E. reflexivity.
Defined.

(** X18. When an add succeeds but the re-fetch that follows fails, the
    failure is not shown: the message set by the failed re-fetch is cleared
    in the same step, the dialog closes and no alert is rendered; without
    fallback data the table keeps the list it had before the add. *)
Theorem refetch_failure_after_add_is_hidden :
  forall (net : Network) (s : UIState) (symbol : string) (r : Response unit),
    net (Add symbol) = Resolved r ->
    fetch_failed (net ListCoins) = true ->
    showsAlert (final (exec net (handleAddCrypto symbol) s)) = false /\
    isSearchDialogOpen (final (exec net (handleAddCrypto symbol) s)) = false /\
    showsTable (final (exec net (handleAddCrypto symbol) s)) = true /\
    (array_shaped (net ListCoins) = false ->
       cryptocurrencies (final (exec net (handleAddCrypto symbol) s))
       = cryptocurrencies s).
Proof.
  intros net s symbol r Ha Hf. unfold handleAddCrypto. cbn [exec]. rewrite Ha.
  unfold add_settle, fetchCryptocurrencies. cbn.
  destruct (net ListCoins) as [[d st]|[e|]]; cbn in *.
  - destruct d; [discriminate|]. repeat split.
  - destruct (response e) as [[d st]|]; cbn.
    + destruct d; repeat split. discriminate.
    + destruct (request e); repeat split.
  - repeat split.
Qed.

Lemma refetch_failure_after_add_is_hidden_witness :
  add_ok (list_fails timed_out unreachable) (Add "DOGE") = Resolved (mkResponse tt 200) /\
  fetch_failed (add_ok (list_fails timed_out unreachable) ListCoins) = true /\
  showsAlert (final (exec (add_ok (list_fails timed_out unreachable))
                          (handleAddCrypto "DOGE")
                          (setCryptocurrencies [BTC] initialState))) = false /\
  cryptocurrencies (final (exec (add_ok (list_fails timed_out unreachable))
                                (handleAddCrypto "DOGE")
                                (setCryptocurrencies [BTC] initialState))) = [BTC].
Proof.
  split; [reflexivity|]. split; [reflexivity|].
  destruct (refetch_failure_after_add_is_hidden
              (add_ok (list_fails timed_out unreachable))
              (setCryptocurrencies [BTC] initialState) "DOGE" (mkResponse tt 200)
              eq_refl eq_refl) as [Hs [_ [_ Hl]]].
  split; [exact Hs | exact (Hl eq_refl)].
Defined.

End EndToEnd.
